(** * Lesson playback synchronisation: parser, action scheduler, voice arbiter

    A shallow embedding of [ActionSynchronizer] (the script parser and the
    action timeline scheduler) and of the [detectSilence] loop of
    [WhiteboardPage.tsx], together with the properties the specification
    states about them.

    Conventions of the embedding.
    - A JavaScript string is the list of its code units ([list ascii]; the
      scripts handled here are 8-bit).  [str] turns a literal into one.
    - Numbers that the code only uses as integers (timestamps, elapsed
      times, frame counters) are [Z].
    - [Date.now()] is an explicit argument [now] of every entry point that
      reads the clock.
    - Callbacks and timers are recorded as a list of effects returned next
      to the new state; the host decides when a requested timer fires. *)

From Stdlib Require Import ZArith Ascii String List Lia Bool Sorted.
From stdpp Require Import base list strings.
Import ListNotations.

Local Open Scope Z_scope.

(** ** JavaScript strings *)

Abbreviation jstring := (list ascii).

Definition str (s : string) : jstring := list_ascii_of_string s.

(** The double quote, [U+0022]. *)
Definition dquote : ascii := ascii_of_nat 34.

(** ** Data model (ActionSynchronizer.ts) *)

Inductive ActionType := write | draw | highlight | erase | newpage.

Record Action := mkAction {
  type : ActionType;
  content : jstring;
  timestamp : Z;
  executed : bool
}.

Record SpeechSegment := mkSpeech {
  text : jstring;
  seg_timestamp : Z;
  duration : option Z
}.

Record ParsedResponse := mkParsed {
  p_actions : list Action;
  p_speech : list SpeechSegment
}.

Global Instance ActionType_eq_dec : EqDecision ActionType.
Proof. solve_decision. Defined.

Global Instance Action_eq_dec : EqDecision Action.
Proof. solve_decision. Defined.

(** ** Script parser (ActionSynchronizer.parseResponse) *)

Module Parser.

Definition codeUnit (c : ascii) : N := N_of_ascii c.

(** [\s] of a regular expression and the characters [trim] removes:
    the white space and line terminators of ECMAScript that fit in
    eight bits (TAB, LF, VT, FF, CR, SP, NBSP). *)
Definition isWhitespace (c : ascii) : bool :=
  existsb (N.eqb (codeUnit c)) [9; 10; 11; 12; 13; 32; 160]%N.

(** [\d] *)
Definition isDigit (c : ascii) : bool :=
  (48 <=? codeUnit c)%N && (codeUnit c <=? 57)%N.

(** [[a-z]] *)
Definition isLower (c : ascii) : bool :=
  (97 <=? codeUnit c)%N && (codeUnit c <=? 122)%N.

Definition newline : ascii := ascii_of_nat 10.
Definition lbrace : ascii := "{"%char.
Definition rbrace : ascii := "}"%char.

(** [String.prototype.split] at every line feed. *)
Fixpoint split_lines (s : jstring) : list jstring :=
  match s with
  | [] => [[]]
  | c :: s' =>
      if Ascii.eqb c newline then [] :: split_lines s'
      else match split_lines s' with
           | l :: ls => (c :: l) :: ls
           | [] => [[c]]
           end
  end.

Fixpoint trimStart (s : jstring) : jstring :=
  match s with
  | [] => []
  | c :: s' => if isWhitespace c then trimStart s' else s
  end.

Fixpoint trimEnd (s : jstring) : jstring :=
  match s with
  | [] => []
  | c :: s' =>
      match trimEnd s' with
      | [] => if isWhitespace c then [] else [c]
      | t => c :: t
      end
  end.

(** [String.prototype.trim] *)
Definition trim (s : jstring) : jstring := trimEnd (trimStart s).

(** [String.prototype.startsWith] *)
Fixpoint startsWith (s pre : jstring) {struct pre} : bool :=
  match pre, s with
  | [], _ => true
  | p :: pre', c :: s' => Ascii.eqb p c && startsWith s' pre'
  | _ :: _, [] => false
  end.

(** The rest of [s] after the literal [pre], when [s] starts with it. *)
Fixpoint afterLiteral (pre s : jstring) {struct pre} : option jstring :=
  match pre, s with
  | [], _ => Some s
  | p :: pre', c :: s' => if Ascii.eqb p c then afterLiteral pre' s' else None
  | _ :: _, [] => None
  end.

(** The longest prefix of characters passing [p], and what follows it:
    a greedy [[...]*]. *)
Fixpoint span (p : ascii -> bool) (s : jstring) : jstring * jstring :=
  match s with
  | [] => ([], [])
  | c :: s' =>
      if p c then let '(a, b) := span p s' in (c :: a, b) else ([], s)
  end.

(** [parseInt(s, 10)] on a string of decimal digits (the only strings it
    is applied to are the two-digit groups of the time stamp). *)
Definition digitValue (c : ascii) : Z := Z.of_N (codeUnit c) - 48.

Definition parseInt (s : jstring) : Z :=
  fold_left (fun acc c => acc * 10 + digitValue c) (fst (span isDigit s)) 0.

(** [line.match(/^\[(\d{2}):(\d{2})\]/)]: the two captured groups; the
    matched text [timestampMatch[0]] always has length 7. *)
Definition timestampMatch (line : jstring) : option (jstring * jstring) :=
  match line with
  | o :: m1 :: m2 :: colon :: s1 :: s2 :: c :: _ =>
      if Ascii.eqb o "["%char && isDigit m1 && isDigit m2
         && Ascii.eqb colon ":"%char && isDigit s1 && isDigit s2
         && Ascii.eqb c "]"%char
      then Some ([m1; m2], [s1; s2]) else None
  | _ => None
  end.

Definition timestampMatchLength : nat := 7.

(** One attempt of [\{[^}]+\}] right after an opening brace: the text up
    to the next closing brace, and what follows that brace. *)
Fixpoint closeBrace (s : jstring) : option (jstring * jstring) :=
  match s with
  | [] => None
  | c :: s' =>
      if Ascii.eqb c rbrace then Some ([], s')
      else match closeBrace s' with
           | Some (body, rest) => Some (c :: body, rest)
           | None => None
           end
  end.

(** One attempt of [\{[^}]+\}] at the start of [s]: the inside of the
    braces, which [+] requires to be non-empty. *)
Definition braceAt (s : jstring) : option jstring :=
  match s with
  | c :: s' =>
      if Ascii.eqb c lbrace then
        match closeBrace s' with
        | Some (b :: body, _) => Some (b :: body)
        | _ => None
        end
      else None
  | [] => None
  end.

(** [content.match(/(\{[^}]+\})/g)]: the regular expression is tried at
    every position from left to right; after a match the search resumes
    behind it ([skip] counts the characters of the match still to pass).
    JavaScript returns [null] where this returns [[]]. *)
Fixpoint braceMatchesFrom (skip : nat) (s : jstring) : list jstring :=
  match s with
  | [] => []
  | c :: s' =>
      match skip with
      | S k => braceMatchesFrom k s'
      | O =>
          match braceAt s with
          | Some body =>
              (lbrace :: body ++ [rbrace])
                :: braceMatchesFrom (S (length body)) s'
          | None => braceMatchesFrom O s'
          end
      end
  end.

Definition braceMatches (s : jstring) : list jstring := braceMatchesFrom O s.

(** [content.replace(/(\{[^}]+\})/g, '')]: the same search, keeping the
    characters outside the matches. *)
Fixpoint stripBracesFrom (skip : nat) (s : jstring) : jstring :=
  match s with
  | [] => []
  | c :: s' =>
      match skip with
      | S k => stripBracesFrom k s'
      | O =>
          match braceAt s with
          | Some body => stripBracesFrom (S (length body)) s'
          | None => c :: stripBracesFrom O s'
          end
      end
  end.

Definition stripBraces (s : jstring) : jstring := stripBracesFrom O s.

(** A regular expression without [^] is searched for at every position
    of the subject, leftmost first. *)
Fixpoint searchFrom {A} (attempt : jstring -> option A) (s : jstring) : option A :=
  match attempt s with
  | Some r => Some r
  | None =>
      match s with
      | [] => None
      | _ :: s' => searchFrom attempt s'
      end
  end.

(** One attempt, at the start of [s], of the regular expression made of
    the literal [{kw:], then [\s*], a double quote, a captured run of
    characters other than the double quote, a double quote and the
    closing brace; the result is the captured group.  Both repetitions
    are greedy, and neither can give characters back: what follows each
    of them is a character its class excludes. *)
Definition quotedAt (kw : string) (s : jstring) : option jstring :=
  match afterLiteral (lbrace :: str kw ++ str ":") s with
  | None => None
  | Some r =>
      match snd (span isWhitespace r) with
      | q :: r' =>
          if Ascii.eqb q dquote then
            let '(captured, tail) := span (fun c => negb (Ascii.eqb c dquote)) r' in
            match tail with
            | q' :: b :: _ =>
                if Ascii.eqb q' dquote && Ascii.eqb b rbrace
                then Some captured else None
            | _ => None
            end
          else None
      | [] => None
      end
  end.

(** One attempt of [{draw:([a-z]+)}] at the start of [s]. *)
Definition drawAt (s : jstring) : option jstring :=
  match afterLiteral (lbrace :: str "draw:") s with
  | None => None
  | Some r =>
      match span isLower r with
      | (c :: captured, b :: _) =>
          if Ascii.eqb b rbrace then Some (c :: captured) else None
      | _ => None
      end
  end.

(** [if (match) actionContent = match[1]] *)
Definition captureOr (m : option jstring) : jstring :=
  match m with Some c => c | None => [] end.

(** The chain of [startsWith] tests on one matched [{...}]: the type
    (initially ['write']) and the content (initially ['']). *)
Definition classify (actionText : jstring) : ActionType * jstring :=
  if startsWith actionText (str "{write:") then
    (write, captureOr (searchFrom (quotedAt "write") actionText))
  else if startsWith actionText (str "{draw:") then
    (draw, captureOr (searchFrom drawAt actionText))
  else if startsWith actionText (str "{highlight:") then
    (highlight, captureOr (searchFrom (quotedAt "highlight") actionText))
  else if startsWith actionText (str "{erase:") then
    (erase, captureOr (searchFrom (quotedAt "erase") actionText))
  else if startsWith actionText (str "{newpage:") then
    (newpage, captureOr (searchFrom (quotedAt "newpage") actionText))
  else (write, []).


Definition isDraw (t : ActionType) : bool :=
  match t with draw => true | _ => false end.

(** The body of [actionMatches.forEach]: the action pushed for one
    matched [{...}], if any ([if (actionContent || type === 'draw')]). *)
Definition actionOf (timestamp : Z) (actionText : jstring) : list Action :=
  let '(type, actionContent) := classify actionText in
  if negb (length actionContent =? 0)%nat || isDraw type
  then [mkAction type actionContent timestamp false]
  else [].

(** The same loop body in the earlier revision of the file, which has no
    test before [actions.push]. *)
Definition actionOfUnguarded (timestamp : Z) (actionText : jstring) : list Action :=
  let '(type, actionContent) := classify actionText in
  [mkAction type actionContent timestamp false].

(** The accumulators of [parseResponse]. *)
Record Acc := mkAcc {
  acc_actions : list Action;
  acc_speech : list SpeechSegment;
  previousTimestamp : Z
}.

(** The body of [lines.forEach]. *)
Definition parseLine (acc : Acc) (line : jstring) : Acc :=
  if (length (trim line) =? 0)%nat then acc
  else
    match timestampMatch line with
    | Some (mm, ss) =>
        let minutes := parseInt mm in
        let seconds := parseInt ss in
        let timestamp := (minutes * 60 + seconds) * 1000 in
        let content := trim (drop timestampMatchLength line) in
        let actionMatches := braceMatches content in
        match actionMatches with
        | _ :: _ =>
            let newActions := flat_map (actionOf timestamp) actionMatches in
            let speechText := trim (stripBraces content) in
            mkAcc (acc_actions acc ++ newActions)
                  (if (length speechText =? 0)%nat then acc_speech acc
                   else acc_speech acc
                          ++ [mkSpeech speechText timestamp
                                       (Some (timestamp - previousTimestamp acc))])
                  timestamp
        | [] =>
            mkAcc (acc_actions acc)
                  (acc_speech acc
                     ++ [mkSpeech content timestamp
                                  (Some (timestamp - previousTimestamp acc))])
                  timestamp
        end
    | None =>
        mkAcc (acc_actions acc)
              (acc_speech acc ++ [mkSpeech (trim line) (previousTimestamp acc) None])
              (previousTimestamp acc)
    end.

Definition parseResponse (response : jstring) : ParsedResponse :=
  let acc := fold_left parseLine (split_lines response) (mkAcc [] [] 0) in
  mkParsed (acc_actions acc) (acc_speech acc).

(** *** Auxiliary notions and example scripts *)

(** A string of white space only. *)
Definition allWhitespace (s : jstring) : Prop :=
  Forall (fun c => isWhitespace c = true) s.


(** The script of a line whose only command has a capitalised shape name,
    and a line without time stamp that mentions an unknown command. *)
Definition capitalShape : jstring := str "[00:01] {draw:Circle}".



(** Whether a search found something. *)
Definition found {A} (m : option A) : bool :=
  match m with Some _ => true | None => false end.



(** What every action that leaves the parser looks like: not executed, due
    at a whole number of seconds that two two-digit fields can express, a
    draw action with lower-case letters only (possibly none), any other
    action with a non-empty content free of double quotes. *)
Definition wellFormed (a : Action) : Prop :=
  executed a = false
  /\ 0 <= timestamp a <= 6039000
  /\ timestamp a mod 1000 = 0
  /\ match type a with
     | draw => forallb isLower (content a) = true
     | _ =>
         content a <> []
         /\ forallb (fun c => negb (Ascii.eqb c dquote)) (content a) = true
     end.

(** A string that [split] leaves in one piece. *)
Definition noNewline (s : jstring) : bool :=
  forallb (fun c => negb (Ascii.eqb c newline)) s.

End Parser.

(** ** Scripts built from known-valid lines

    The grammar of section 6 of the specification, as a data type: a script
    is a list of lines, a line is a time stamp followed by free text and
    commands.  [renderScript] writes a script out; [constructedActions] and
    [constructedSpeech] are the two lists its construction implies. *)

Module Script.

Inductive Item :=
| Text (t : jstring)
| Command (k : ActionType) (payload : jstring).

Record Line := mkLine {
  minutes : nat;
  seconds : nat;
  items : list Item
}.

Definition digitChar (d : nat) : ascii := ascii_of_nat (48 + d).

(** A two-digit, zero-padded field. *)
Definition twoDigits (n : nat) : jstring :=
  [digitChar (n / 10); digitChar (n mod 10)].

(** What stands between the braces of a command. *)
Definition commandBody (k : ActionType) (payload : jstring) : jstring :=
  match k with
  | write => str "write: " ++ [dquote] ++ payload ++ [dquote]
  | draw => str "draw:" ++ payload
  | highlight => str "highlight: " ++ [dquote] ++ payload ++ [dquote]
  | erase => str "erase: " ++ [dquote] ++ payload ++ [dquote]
  | newpage => str "newpage: " ++ [dquote] ++ payload ++ [dquote]
  end.

(** The five command forms. *)
Definition renderCommand (k : ActionType) (payload : jstring) : jstring :=
  Parser.lbrace :: commandBody k payload ++ [Parser.rbrace].

Definition renderItem (it : Item) : jstring :=
  match it with
  | Text t => t
  | Command k payload => renderCommand k payload
  end.

Definition renderItems (its : list Item) : jstring := flat_map renderItem its.

Definition renderLine (l : Line) : jstring :=
  str "[" ++ twoDigits (minutes l) ++ str ":" ++ twoDigits (seconds l) ++ str "]"
  ++ renderItems (items l).

Fixpoint joinLines (ls : list jstring) : jstring :=
  match ls with
  | [] => []
  | [l] => l
  | l :: ls' => l ++ Parser.newline :: joinLines ls'
  end.

Definition renderScript (ls : list Line) : jstring := joinLines (map renderLine ls).

Definition lineTimestamp (l : Line) : Z :=
  (Z.of_nat (minutes l) * 60 + Z.of_nat (seconds l)) * 1000.

Definition commandsOf (its : list Item) : list (ActionType * jstring) :=
  flat_map (fun it => match it with Command k p => [(k, p)] | Text _ => [] end) its.

Definition textOf (its : list Item) : jstring :=
  flat_map (fun it => match it with Text t => t | Command _ _ => [] end) its.

(** One action per command, in order, due at the time stamp of its line. *)
Definition lineActions (l : Line) : list Action :=
  map (fun kp => mkAction (fst kp) (snd kp) (lineTimestamp l) false)
      (commandsOf (items l)).

Definition constructedActions (ls : list Line) : list Action :=
  flat_map lineActions ls.

(** The speech segment of a line, as the specification constructs it: the
    text of the line without its commands, trimmed, at the time stamp of
    the line and lasting since the previous time stamp (since 0 for the
    first line).  A line that is empty after stripping its commands has
    no segment, whether it has commands or not. *)
Definition lineSpeech (previous : Z) (l : Line) : list SpeechSegment :=
  let t := Parser.trim (textOf (items l)) in
  match t with
  | [] => []
  | _ :: _ => [mkSpeech t (lineTimestamp l) (Some (lineTimestamp l - previous))]
  end.

Fixpoint constructedSpeech (previous : Z) (ls : list Line) : list SpeechSegment :=
  match ls with
  | [] => []
  | l :: ls' => lineSpeech previous l ++ constructedSpeech (lineTimestamp l) ls'
  end.

(** The original command substrings of a script, in order. *)
Definition commandSubstrings (ls : list Line) : list jstring :=
  flat_map (fun l => map (fun kp => renderCommand (fst kp) (snd kp))
                         (commandsOf (items l))) ls.

(** A quoted string that the quoted forms carry through: not empty, and
    without double quote, closing brace or line feed. *)
Definition quotedChar (c : ascii) : bool :=
  negb (Ascii.eqb c dquote) && negb (Ascii.eqb c Parser.rbrace)
  && negb (Ascii.eqb c Parser.newline).

(** Free text: without opening brace or line feed. *)
Definition textChar (c : ascii) : bool :=
  negb (Ascii.eqb c Parser.lbrace) && negb (Ascii.eqb c Parser.newline).

Definition validPayload (k : ActionType) (payload : jstring) : bool :=
  negb (length payload =? 0)%nat
  && forallb (match k with draw => Parser.isLower | _ => quotedChar end) payload.

Definition validItem (it : Item) : bool :=
  match it with
  | Text t => forallb textChar t
  | Command k payload => validPayload k payload
  end.

Definition validLine (l : Line) : bool :=
  (minutes l <? 100)%nat && (seconds l <? 100)%nat && forallb validItem (items l).

(** A line that says or does something: it has a command, or text other
    than white space. *)
Definition notBare (l : Line) : bool :=
  negb (length (commandsOf (items l)) =? 0)%nat
  || negb (length (Parser.trim (textOf (items l))) =? 0)%nat.

(** *** Example scripts *)

(** The command substring of a (kind, payload) pair. *)
Definition renderPair (kp : ActionType * jstring) : jstring :=
  renderCommand (fst kp) (snd kp).

(** Two lines of the grammar: a [write] whose quoted string is empty, and
    a [write] whose quoted string holds a closing brace. *)
Definition emptyQuoted : list Line := [mkLine 0 1 [Text (str " "); Command write []]].

Definition braceQuoted : list Line :=
  [mkLine 0 1 [Text (str " "); Command write (str "{x}")]].

(** A line of the grammar that is a time stamp and nothing else. *)
Definition bareLine : list Line := [mkLine 0 7 []].

(** The example script of the specification, as a constructed script. *)
Definition exampleLines : list Line :=
  [mkLine 0 0 [Text (str " Hello "); Command write (str "Hi")];
   mkLine 0 5 [Text (str " "); Command draw (str "circle")]].

End Script.

(** ** Action timeline scheduler (ActionSynchronizer.ts) *)

Module Scheduler.

(** The fields of the class.  The two callbacks are not state: calling
    them is recorded as an [Effect]. *)
Record Synchronizer := mkSync {
  actions : list Action;
  speech : list SpeechSegment;
  startTime : Z;
  isPlaying : bool;
  processingAction : bool;
  lastActionTime : Z;
  actionBuffer : list jstring
}.

Inductive Effect :=
| ActionCallback (action : jstring)   (* this.actionCallback(action) *)
| OnComplete                          (* this.onComplete() *)
| SetTimeout (delay : Z).             (* setTimeout(() => this.checkActions(), delay) *)

Global Instance Effect_eq_dec : EqDecision Effect.
Proof. solve_decision. Defined.

(** A state transformer that also reports the effects it performed. *)
Definition Run : Type := Synchronizer -> Synchronizer * list Effect.

Definition set_actions (l : list Action) (s : Synchronizer) : Synchronizer :=
  mkSync l (speech s) (startTime s) (isPlaying s) (processingAction s)
         (lastActionTime s) (actionBuffer s).
Definition set_isPlaying (b : bool) (s : Synchronizer) : Synchronizer :=
  mkSync (actions s) (speech s) (startTime s) b (processingAction s)
         (lastActionTime s) (actionBuffer s).
Definition set_processingAction (b : bool) (s : Synchronizer) : Synchronizer :=
  mkSync (actions s) (speech s) (startTime s) (isPlaying s) b
         (lastActionTime s) (actionBuffer s).
Definition set_lastActionTime (t : Z) (s : Synchronizer) : Synchronizer :=
  mkSync (actions s) (speech s) (startTime s) (isPlaying s) (processingAction s)
         t (actionBuffer s).
Definition set_actionBuffer (b : list jstring) (s : Synchronizer) : Synchronizer :=
  mkSync (actions s) (speech s) (startTime s) (isPlaying s) (processingAction s)
         (lastActionTime s) b.
Definition set_startTime (t : Z) (s : Synchronizer) : Synchronizer :=
  mkSync (actions s) (speech s) t (isPlaying s) (processingAction s)
         (lastActionTime s) (actionBuffer s).

(** The [switch] of [checkActions]: the command string handed to the
    whiteboard for an action. *)
Definition formatAction (a : Action) : jstring :=
  match type a with
  | write => str "{write: " ++ [dquote] ++ content a ++ [dquote] ++ str "}"
  | draw => str "{draw:" ++ content a ++ str "}"
  | highlight => str "{highlight: " ++ [dquote] ++ content a ++ [dquote] ++ str "}"
  | erase => str "{erase: " ++ [dquote] ++ content a ++ [dquote] ++ str "}"
  | newpage => str "{newpage: " ++ [dquote] ++ content a ++ [dquote] ++ str "}"
  end.

(** [[...this.actions].sort((a, b) => a.timestamp - b.timestamp)].
    The copy is shallow: its elements are the objects of [this.actions],
    so every element is carried with its index in [this.actions], and the
    later write [action.executed = true] is a write at that index.
    [Array.prototype.sort] is stable; a stable insertion sort returns the
    same array. *)
Fixpoint insert_by_timestamp (x : nat * Action) (l : list (nat * Action))
  : list (nat * Action) :=
  match l with
  | [] => [x]
  | y :: l' =>
      if timestamp (snd x) <=? timestamp (snd y) then x :: y :: l'
      else y :: insert_by_timestamp x l'
  end.

Definition sortedActions (l : list Action) : list (nat * Action) :=
  foldr insert_by_timestamp [] (imap pair l).

(** The order of the sorted copy: by time stamp and, for equal time stamps,
    by position in [this.actions] (the order in which the parser pushed
    them). *)
Definition before (x y : nat * Action) : Prop :=
  timestamp (snd x) < timestamp (snd y)
  \/ (timestamp (snd x) = timestamp (snd y) /\ (fst x < fst y)%nat).

(** The test of the [for] loop. *)
Definition due (elapsedTime : Z) (p : nat * Action) : bool :=
  negb (executed (snd p)) && (timestamp (snd p) <=? elapsedTime).

(** The first element of the sorted copy that passes the test: the action
    the loop stops at ([break]). *)
Definition selectAction (elapsedTime : Z) (l : list Action) : option (nat * Action) :=
  find (due elapsedTime) (sortedActions l).

Definition markExecuted (a : Action) : Action :=
  mkAction (type a) (content a) (timestamp a) true.

Definition minActionSpacing : Z := 800.

(** The condition under which the selected action is buffered. *)
Definition mustBuffer (elapsedTime : Z) (s : Synchronizer) : bool :=
  processingAction s
  || ((0 <? lastActionTime s) && (elapsedTime - lastActionTime s <? minActionSpacing)).

(** The body of the [for] loop for the selected action at index [i]. *)
Definition claimAction (elapsedTime : Z) (i : nat) (a : Action) : Run :=
  fun s =>
    let actionText := formatAction a in
    let '(s1, out) :=
      if mustBuffer elapsedTime s
      then (set_actionBuffer (actionBuffer s ++ [actionText]) s, [])
      else (set_lastActionTime elapsedTime (set_processingAction true s),
            [ActionCallback actionText]) in
    (set_actions (alter markExecuted i (actions s1)) s1, out).

(** The end of [checkActions]: completion or the next poll. *)
Definition finishCheck (actionFound : bool) : Run :=
  fun s =>
    let allActionsExecuted := forallb executed (actions s) in
    let allActionsProcessed :=
      allActionsExecuted && (length (actionBuffer s) =? 0)%nat
      && negb (processingAction s) in
    if allActionsProcessed && (0 <? length (actions s))%nat
    then (set_isPlaying false s, [OnComplete])
    else if isPlaying s
         then (s, [SetTimeout (if actionFound then 500 else 250)])
         else (s, []).

Definition checkActions (now : Z) : Run :=
  fun s =>
    if negb (isPlaying s) then (s, [])
    else
      let elapsedTime := now - startTime s in
      if processingAction s then (s, [SetTimeout 250])
      else
        let '(s1, out1, actionFound) :=
          match selectAction elapsedTime (actions s) with
          | Some (i, a) =>
              let '(s', out) := claimAction elapsedTime i a s in (s', out, true)
          | None => (s, [], false)
          end in
        let '(s2, out2) := finishCheck actionFound s1 in
        (s2, out1 ++ out2).

Definition loadResponse (response : jstring) (s : Synchronizer) : Synchronizer :=
  let parsed := Parser.parseResponse response in
  mkSync (p_actions parsed) (p_speech parsed) (startTime s) (isPlaying s)
         false (lastActionTime s) [].

(** A synchronizer as the constructor leaves it. *)
Definition initial : Synchronizer := mkSync [] [] 0 false false 0 [].

(** [start] reads the clock, and the poll it ends with reads it again; the
    two reads are taken to give the same instant. *)
Definition start (now : Z) : Run :=
  fun s =>
    checkActions now
      (set_lastActionTime 0 (set_isPlaying true (set_startTime now s))).

Definition stop : Run :=
  fun s => (set_actionBuffer [] (set_processingAction false (set_isPlaying false s)), []).

(** [Array.prototype.shift] followed by the truthiness test
    [if (nextAction)]: the empty string is falsy. *)
Definition notifyActionComplete (now : Z) : Run :=
  fun s =>
    let s := set_processingAction false s in
    match actionBuffer s with
    | nextAction :: rest =>
        let s := set_actionBuffer rest s in
        match nextAction with
        | [] => (s, [])
        | _ :: _ => (set_processingAction true s, [ActionCallback nextAction])
        end
    | [] => checkActions now s
    end.

Definition getRemainingActions (s : Synchronizer) : list Action :=
  List.filter (fun a => negb (executed a)) (actions s).

Record Progress := mkProgress {
  elapsedTime : Z;
  totalActions : Z;
  completedActions : Z;
  remainingActions : Z
}.

Definition getProgress (now : Z) (s : Synchronizer) : Progress :=
  let elapsedTime := if isPlaying s then now - startTime s else 0 in
  let totalActions := Z.of_nat (length (actions s)) in
  let completedActions := Z.of_nat (length (List.filter executed (actions s))) in
  mkProgress elapsedTime totalActions completedActions (totalActions - completedActions).

(** The commands an effect list hands to the executor. *)
Fixpoint effectDispatches (out : list Effect) : list jstring :=
  match out with
  | [] => []
  | ActionCallback a :: out' => a :: effectDispatches out'
  | _ :: out' => effectDispatches out'
  end.

(** *** Schedules

    What the host can do to a synchronizer between two quiescent states:
    call [start], run a pending poll timer, or deliver a completion
    notification from the executor. *)
Inductive Event :=
| Start (now : Z)
| Tick (now : Z)
| NotifyActionComplete (now : Z).

Definition step (e : Event) : Run :=
  match e with
  | Start now => start now
  | Tick now => checkActions now
  | NotifyActionComplete now => notifyActionComplete now
  end.

(** The log of a run: every call made into the synchronizer, followed by
    what the synchronizer did during that call. *)
Inductive LogEntry :=
| Called (e : Event)
| Did (eff : Effect).

Fixpoint run (evs : list Event) (s : Synchronizer) : Synchronizer * list LogEntry :=
  match evs with
  | [] => (s, [])
  | e :: evs' =>
      let '(s1, out) := step e s in
      let '(s2, log) := run evs' s1 in
      (s2, Called e :: map Did out ++ log)
  end.

(** The commands handed to the executor, in order. *)
Fixpoint dispatched (log : list LogEntry) : list jstring :=
  match log with
  | [] => []
  | Did (ActionCallback a) :: log' => a :: dispatched log'
  | _ :: log' => dispatched log'
  end.

Fixpoint completions (log : list LogEntry) : nat :=
  match log with
  | [] => 0%nat
  | Did OnComplete :: log' => S (completions log')
  | _ :: log' => completions log'
  end.

(** Single flight, read off a log: [inFlight] tells whether the executor
    holds a command whose completion has not been notified yet.  The
    check fails at a dispatch made while it does. *)
Fixpoint singleFlight (inFlight : bool) (log : list LogEntry) : bool :=
  match log with
  | [] => true
  | Did (ActionCallback _) :: log' => negb inFlight && singleFlight true log'
  | Called (NotifyActionComplete _) :: log' => singleFlight false log'
  | _ :: log' => singleFlight inFlight log'
  end.

(** Whether a command is in flight at the end of a log. *)
Fixpoint inFlightAfter (inFlight : bool) (log : list LogEntry) : bool :=
  match log with
  | [] => inFlight
  | Did (ActionCallback _) :: log' => inFlightAfter true log'
  | Called (NotifyActionComplete _) :: log' => inFlightAfter false log'
  | _ :: log' => inFlightAfter inFlight log'
  end.

(** Every action claimed, nothing buffered, nothing in flight. *)
Definition drained (s : Synchronizer) : bool :=
  forallb executed (actions s)
  && (length (actionBuffer s) =? 0)%nat
  && negb (processingAction s).

(** *** Auxiliary notions and example runs *)

(** Every buffered command is a non-empty string, so the truthiness test
    of [notifyActionComplete] never discards one. *)
Definition bufferOK (s : Synchronizer) : Prop :=
  Forall (fun x : jstring => x <> []) (actionBuffer s).

(** The indicator of a condition, for counting. *)
Definition ind (b : bool) : nat := if b then 1%nat else 0%nat.

(** How often an effect list calls [onComplete]. *)
Fixpoint effectCompletions (out : list Effect) : nat :=
  match out with
  | [] => 0%nat
  | OnComplete :: out' => S (effectCompletions out')
  | _ :: out' => effectCompletions out'
  end.

(** A schedule of polls and completion notifications only. *)
Definition noStart (evs : list Event) : bool :=
  forallb (fun e => match e with Start _ => false | _ => true end) evs.

(** What holds between two calls once playback of a non-empty timeline has
    started: playback runs exactly as long as the synchronizer is not
    drained. *)
Definition completionInv (s : Synchronizer) : Prop :=
  actions s <> [] /\ bufferOK s /\ isPlaying s = negb (drained s).

(** The script of a lesson that only speaks: no command, so an empty
    timeline. *)
Definition speechOnlyScript : jstring := str "[00:00] Hello".

(** The example script of the specification. *)
Definition exampleScript : jstring :=
  str "[00:00] Hello {write: " ++ [dquote] ++ str "Hi" ++ [dquote] ++ str "}"
  ++ [Parser.newline] ++ str "[00:05] {draw:circle}".

(** A synchronizer that has just started playing the example script, and
    the first action of that script. *)
Definition exampleStarted : Synchronizer :=
  set_isPlaying true (loadResponse exampleScript initial).

Definition exampleFirst : Action := mkAction write (str "Hi") 0 false.

(** A timeline of two actions due at 1000 ms, 100 ms after the first was
    fired and notified complete: the second is due, and too close. *)
Definition spacedState : Synchronizer :=
  mkSync [mkAction write (str "a") 1000 true; mkAction write (str "b") 1000 false]
         [] 0 true false 1000 [].

(** A script with two commands on its first line and a third one a second
    later. *)
Definition threeWrites : jstring :=
  str "[00:01] {write: " ++ [dquote] ++ str "a" ++ [dquote] ++ str "} "
  ++ str "{write: " ++ [dquote] ++ str "b" ++ [dquote] ++ str "}"
  ++ [Parser.newline]
  ++ str "[00:02] {write: " ++ [dquote] ++ str "c" ++ [dquote] ++ str "}".

Definition cmdA : jstring := str "{write: " ++ [dquote] ++ str "a" ++ [dquote] ++ str "}".

Definition cmdB : jstring := str "{write: " ++ [dquote] ++ str "b" ++ [dquote] ++ str "}".

Definition cmdC : jstring := str "{write: " ++ [dquote] ++ str "c" ++ [dquote] ++ str "}".

(** The first command is fired at 1000 ms and notified complete at 1100 ms;
    the poll made by that notification buffers the second command, which is
    due but too close to the first. *)
Definition afterFirstCompletion : Synchronizer :=
  fst (run [Start 0; Tick 250; Tick 500; Tick 750; Tick 1000;
            NotifyActionComplete 1100]
           (loadResponse threeWrites initial)).

(** A run in which a buffered command is overtaken: polls at the times the
    timers of the run ask for
    (250 ms after a poll that claimed nothing or found an action in flight,
    500 ms after one that claimed an action), the first command notified
    complete 100 ms after it was fired, the two others 400 ms and 300 ms
    after they were handed over. *)
Definition overtakingSchedule : list Event :=
  [Start 0; Tick 250; Tick 500; Tick 750; Tick 1000;
   NotifyActionComplete 1100;
   Tick 1500; Tick 1600; Tick 1750; Tick 1850; Tick 2000; Tick 2100; Tick 2350;
   NotifyActionComplete 2400;
   Tick 2500; Tick 2600;
   NotifyActionComplete 2700].

(** The clock reading of a call. *)
Definition eventTime (e : Event) : Z :=
  match e with
  | Start t => t
  | Tick t => t
  | NotifyActionComplete t => t
  end.

(** The due times of the timers an effect list arms at time [now]. *)
Definition armedBy (now : Z) (out : list Effect) : list Z :=
  flat_map (fun eff => match eff with SetTimeout d => [now + d] | _ => [] end) out.

Fixpoint removeFirst (t : Z) (l : list Z) : list Z :=
  match l with
  | [] => []
  | x :: l' => if x =? t then l' else x :: removeFirst t l'
  end.

(** A schedule the timers of the host can produce: time does not run
    backwards, and every poll is the firing, at its due time, of a timer
    that an earlier call armed and that has not fired yet. *)
Fixpoint timersRespected (pending : list Z) (clock : Z) (evs : list Event)
         (s : Synchronizer) : bool :=
  match evs with
  | [] => true
  | e :: evs' =>
      let now := eventTime e in
      let '(s1, out) := step e s in
      (clock <=? now)
      && match e with
         | Tick t => existsb (Z.eqb t) pending
         | _ => true
         end
      && timersRespected
           (match e with
            | Tick t => removeFirst t pending
            | _ => pending
            end ++ armedBy now out)
           now evs' s1
  end.

(** The time stamp of the first action of the timeline whose rendering is
    the given command. *)
Definition dueAtOf (l : list Action) (cmd : jstring) : option Z :=
  timestamp <$> find (fun a => bool_decide (formatAction a = cmd)) l.

(** Each time stamp is at most the next one. *)
Definition nonDecreasing (l : list (option Z)) : Prop :=
  forall i x y, l !! i = Some (Some x) -> l !! S i = Some (Some y) -> x <= y.

(** *** The remaining entry points *)

(** [reset]: the timeline, the speech list and the buffer are emptied,
    playback and the in-flight flag are lowered. *)
Definition reset : Run :=
  fun s => (mkSync [] [] (startTime s) false false (lastActionTime s) [], []).

(** [getCurrentSpeechSegment]: [null] when not playing or without speech;
    otherwise the loop walks the speech list from its last element down
    and returns the first segment that has started. *)
Definition getCurrentSpeechSegment (now : Z) (s : Synchronizer) : option SpeechSegment :=
  if negb (isPlaying s) || (length (speech s) =? 0)%nat then None
  else
    let elapsedTime := now - startTime s in
    find (fun seg => seg_timestamp seg <=? elapsedTime) (rev (speech s)).

(** An action after some calls, compared with itself before: the same
    command at the same time, and once executed it stays executed. *)
Definition advances (a a' : Action) : Prop :=
  type a' = type a /\ content a' = content a /\ timestamp a' = timestamp a
  /\ (executed a = true -> executed a' = true).

(** The executed actions come first in the order of the sorted copy. *)
Definition claimedInOrder (l : list Action) : Prop :=
  forall i a j b,
    l !! i = Some a -> l !! j = Some b ->
    executed a = true -> executed b = false -> before (i, a) (j, b).

(** The action a poll at time [now] stops at, if the poll gets to the loop
    and finds one. *)
Definition pollClaim (now : Z) (s : Synchronizer) : option (nat * Action) :=
  if isPlaying s && negb (processingAction s)
  then selectAction (now - startTime s) (actions s)
  else None.

(** The action a call claims (marks executed), if any: [start] and, with an
    empty buffer, [notifyActionComplete] end with a poll. *)
Definition claimOf (e : Event) (s : Synchronizer) : option (nat * Action) :=
  match e with
  | Tick now => pollClaim now s
  | Start now =>
      pollClaim now (set_lastActionTime 0 (set_isPlaying true (set_startTime now s)))
  | NotifyActionComplete now =>
      match actionBuffer s with
      | [] => pollClaim now (set_processingAction false s)
      | _ :: _ => None
      end
  end.

(** The actions claimed during a run, in the order in which they are
    claimed, each with its position in the timeline. *)
Fixpoint claims (evs : list Event) (s : Synchronizer) : list (nat * Action) :=
  match evs with
  | [] => []
  | e :: evs' =>
      match claimOf e s with
      | Some c => c :: claims evs' (fst (step e s))
      | None => claims evs' (fst (step e s))
      end
  end.

(** A schedule in which time does not run backwards and every completion
    notification for a command in flight arrives at least
    [minActionSpacing] after the poll that fired it.  [clock] is the time
    of the previous call. *)
Fixpoint unhurried (clock : Z) (evs : list Event) (s : Synchronizer) : bool :=
  match evs with
  | [] => true
  | e :: evs' =>
      (clock <=? eventTime e)
      && match e with
         | NotifyActionComplete now =>
             negb (processingAction s)
             || (lastActionTime s + minActionSpacing <=? now - startTime s)
         | _ => true
         end
      && unhurried (eventTime e) evs' (fst (step e s))
  end.

(** The spacing rule has nothing to object to at time [clock] or later. *)
Definition spaced (clock : Z) (s : Synchronizer) : Prop :=
  processingAction s = false ->
  lastActionTime s <= 0 \/ lastActionTime s + minActionSpacing <= clock - startTime s.

(** A schedule without completion notification. *)
Definition noNotify (evs : list Event) : bool :=
  forallb (fun e => match e with NotifyActionComplete _ => false | _ => true end) evs.

(** Whether a call ends with a poll: [start] and [checkActions] always,
    [notifyActionComplete] when the buffer is empty. *)
Definition polls (e : Event) (s : Synchronizer) : bool :=
  match e with
  | NotifyActionComplete _ => (length (actionBuffer s) =? 0)%nat
  | _ => true
  end.

End Scheduler.

(** ** Voice activity arbiter (WhiteboardPage.tsx, detectSilence) *)

Module Arbiter.

(** What one run of [detectSilence] reads from outside its own counters:
    the analyser data, the React state captured by the closure
    ([isUserSpeaking], [isSpeaking], [aiSpeakingCooldown],
    [lessonInProgress], [isConnected]), the refs
    ([silenceDetectionDisabledRef], [aiResponseInProgressRef]) and whether
    the socket is there and open.  The model does not decide how these
    values come about; every frame carries the values it reads. *)
Record Frame := mkFrame {
  dataArray : list Z;
  silenceDetectionDisabled : bool;
  isUserSpeaking : bool;
  isSpeaking : bool;
  aiSpeakingCooldown : bool;
  aiResponseInProgress : bool;
  lessonInProgress : bool;
  wsOpen : bool;
  isConnected : bool
}.

Inductive Signal := INT | EOS.

Inductive Effect :=
| SetIsUserSpeaking (b : bool)
| WsSend (m : Signal)
| RequestAnimationFrame.

Global Instance Signal_eq_dec : EqDecision Signal.
Proof. solve_decision. Defined.

Global Instance Effect_eq_dec : EqDecision Effect.
Proof. solve_decision. Defined.

(** The variables of [startRecording] the loop writes, the timer ref, and
    the host's table of armed timers ([setTimeout] hands out fresh
    identifiers, starting at 1). *)
Record Detector := mkDetector {
  silenceFrames : Z;
  speakingFrames : Z;
  userSpeakingTimeoutRef : option nat;
  armedTimers : list nat;
  nextTimerId : nat
}.

Definition initial : Detector := mkDetector 0 0 None [] 1.

Definition maxSilenceFrames : Z := 60.
Definition minSpeakingFrames : Z := 15.

(** [analyser.frequencyBinCount] for [fftSize = 256]. *)
Definition bufferLength : Z := 128.

(** The loop [for (i = 0; i < bufferLength; i++) sum += dataArray[i]]. *)
Definition sum (data : list Z) : Z :=
  fold_left Z.add (take (Z.to_nat bufferLength) data) 0.

(** [average > silenceThreshold] with [average = sum / bufferLength / 255]
    and [silenceThreshold = 0.04], read over the rationals: 4/100 of
    [bufferLength * 255] is below the sum.  (For the integer sums a byte
    array gives, the nearest quotients lie 1e-5 away from 0.04, far outside
    rounding error, so the floating-point test decides the same.) *)
Definition aboveThreshold (f : Frame) : bool :=
  4 * (bufferLength * 255) <? 100 * sum (dataArray f).

(** The guard of the specification: AI speaking, cool-down, or a response
    or lesson in progress. *)
Definition guard (f : Frame) : bool :=
  isSpeaking f || aiSpeakingCooldown f || aiResponseInProgress f || lessonInProgress f.

(** [clearTimeout(userSpeakingTimeoutRef.current)], when the ref is set. *)
Definition clearTimeoutRef (d : Detector) : list nat :=
  match userSpeakingTimeoutRef d with
  | Some id => List.filter (fun x => negb (x =? id)%nat) (armedTimers d)
  | None => armedTimers d
  end.

Definition nextFrame (f : Frame) : list Effect :=
  if isConnected f then [RequestAnimationFrame] else [].

Definition detectSilence (f : Frame) (d : Detector) : Detector * list Effect :=
  if silenceDetectionDisabled f then (d, [RequestAnimationFrame])
  else if aboveThreshold f then
    let speakingFrames' := speakingFrames d + 1 in
    let d' := mkDetector 0 speakingFrames' (userSpeakingTimeoutRef d)
                         (armedTimers d) (nextTimerId d) in
    if (minSpeakingFrames <=? speakingFrames')
       && negb (isUserSpeaking f) && negb (isSpeaking f)
       && negb (aiSpeakingCooldown f) && negb (aiResponseInProgress f)
       && negb (lessonInProgress f)
    then (d', SetIsUserSpeaking true
                :: (if wsOpen f then [WsSend INT] else []) ++ nextFrame f)
    else (d', nextFrame f)
  else
    let silenceFrames' := silenceFrames d + 1 in
    if (maxSilenceFrames <? silenceFrames') && isUserSpeaking f
    then (mkDetector silenceFrames' 0 (Some (nextTimerId d))
                     (clearTimeoutRef d ++ [nextTimerId d]) (S (nextTimerId d)),
          SetIsUserSpeaking false :: nextFrame f)
    else (mkDetector silenceFrames' 0 (userSpeakingTimeoutRef d)
                     (armedTimers d) (nextTimerId d),
          nextFrame f).

(** The callback of the debounce timer; it runs only if the timer is still
    armed, and a timer runs once. *)
Definition timerFires (id : nat) (open : bool) (d : Detector) : Detector * list Effect :=
  if existsb (Nat.eqb id) (armedTimers d)
  then (mkDetector (silenceFrames d) (speakingFrames d) (userSpeakingTimeoutRef d)
                   (List.filter (fun x => negb (x =? id)%nat) (armedTimers d))
                   (nextTimerId d),
        if open then [WsSend EOS] else [])
  else (d, []).

Inductive Event :=
| Sample (f : Frame)
| Timeout (id : nat) (open : bool).

Definition step (e : Event) (d : Detector) : Detector * list Effect :=
  match e with
  | Sample f => detectSilence f d
  | Timeout id open => timerFires id open d
  end.

Fixpoint run (evs : list Event) (d : Detector) : Detector * list Effect :=
  match evs with
  | [] => (d, [])
  | e :: evs' =>
      let '(d1, out) := step e d in
      let '(d2, out') := run evs' d1 in
      (d2, out ++ out')
  end.

Definition samples (fs : list Frame) : list Event := map Sample fs.

(** How often a signal was sent. *)
Definition sent (m : Signal) (out : list Effect) : nat :=
  length (List.filter (fun e => bool_decide (e = WsSend m)) out).

(** Whether an effect occurs in an effect list. *)
Definition performed (e : Effect) (out : list Effect) : bool :=
  existsb (fun x => bool_decide (x = e)) out.

(** Whether a frame calls [setIsUserSpeaking(false)]: the branch for the
    transition from speaking to silent. *)
Definition stopsSpeaking (f : Frame) (d : Detector) : bool :=
  performed (SetIsUserSpeaking false) (snd (detectSilence f d)).

(** The timer table as the loop keeps it: at most one timer is armed, the
    ref points at it, and identifiers not handed out yet are not armed. *)
Definition wfTimers (d : Detector) : Prop :=
  (armedTimers d = []
   \/ exists id, userSpeakingTimeoutRef d = Some id /\ armedTimers d = [id])
  /\ Forall (fun id => (id < nextTimerId d)%nat) (armedTimers d).

(** Frames for examples: a full-scale and an all-zero analyser reading. *)
Definition loudData : list Z := repeat 255 128.
Definition quietData : list Z := repeat 0 128.

(** *** Example frames and runs *)

(** A frame above the threshold, read with detection enabled. *)
Definition loudFrame (f : Frame) : Prop :=
  silenceDetectionDisabled f = false /\ aboveThreshold f = true.


(** A loud frame read with everything clear, and one read while a lesson is
    in progress. *)
Definition loudClear : Frame :=
  mkFrame loudData false false false false false false true true.


(** A quiet frame read with everything clear: the same React state as
    [loudClear] reads. *)
Definition quietClear : Frame :=
  mkFrame quietData false false false false false false true true.

(** *** The loop on the mounted page

    [detectSilence] is created by [startRecording], which the page calls
    from the effect that follows the render in which [isConnected] became
    true.  The React state the function reads ([isUserSpeaking],
    [isSpeaking], [aiSpeakingCooldown], [lessonInProgress],
    [isConnected]) is the state of that render: a later call of
    [setIsUserSpeaking] renders the page again but does not reach the
    running loop, so every frame of one loop reads the same values.  No
    code but the loop calls [setIsUserSpeaking], so the value the loop
    reads for [isUserSpeaking] is the initial [false].  The refs
    ([silenceDetectionDisabledRef], [aiResponseInProgressRef], [wsRef])
    are read afresh by every frame. *)
Definition readsUserSilent (e : Event) : bool :=
  match e with
  | Sample f => negb (isUserSpeaking f)
  | Timeout _ _ => true
  end.

(** The user speaks (15 loud frames) and then is silent for 61 frames;
    timer 1, the first identifier the host hands out, would fire half a
    second later had the loop armed it. *)
Definition speaksThenSilent : list Event :=
  samples (repeat loudClear 15) ++ samples (repeat quietClear 61) ++ [Timeout 1 true].

(** Every effect but the request for the next frame. *)
Definition notFrameRequest (e : Effect) : bool :=
  negb (bool_decide (e = RequestAnimationFrame)).

End Arbiter.

(** ** Whiteboard executor (Whiteboard.tsx, the effect on [actionQueue]) *)

Module Executor.
Import Parser.

(** What the effect does with the command at the head of the queue, once
    it has stored it in [currentActionRef].  The first five start an
    animation or a timer whose last step clears [currentActionRef] and
    calls [onActionComplete]; [UntitledPage] and [CompleteAtOnce] clear it
    and call [onActionComplete] right away.  [Stall] is the [write] or
    [draw] branch whose inner test fails: those branches have no [else],
    so nothing is scheduled, [onActionComplete] is not called and
    [currentActionRef] stays set, which keeps the guard of the effect
    false from then on. *)
Inductive Reaction :=
| WriteText (text : jstring)
| DrawShape (shapeType : jstring)
| HighlightText (textToHighlight : jstring)
| EraseArea (area : jstring)
| TitledPage (pageTitle : jstring)
| UntitledPage
| CompleteAtOnce
| Stall.

(** [match && match[1]]: a match whose first group is not empty. *)
Definition captured (m : option jstring) : option jstring :=
  match m with
  | Some (c :: t) => Some (c :: t)
  | _ => None
  end.

(** The chain of [startsWith] tests of the effect. *)
Definition react (action : jstring) : Reaction :=
  if startsWith action (str "{write:") then
    match captured (searchFrom (quotedAt "write") action) with
    | Some text => WriteText text
    | None => Stall
    end
  else if startsWith action (str "{draw:") then
    match captured (searchFrom drawAt action) with
    | Some shapeType => DrawShape shapeType
    | None => Stall
    end
  else if startsWith action (str "{highlight:") then
    match captured (searchFrom (quotedAt "highlight") action) with
    | Some textToHighlight => HighlightText textToHighlight
    | None => CompleteAtOnce
    end
  else if startsWith action (str "{erase:") then
    match captured (searchFrom (quotedAt "erase") action) with
    | Some area => EraseArea area
    | None => CompleteAtOnce
    end
  else if startsWith action (str "{newpage:") then
    match captured (searchFrom (quotedAt "newpage") action) with
    | Some pageTitle => TitledPage pageTitle
    | None => UntitledPage
    end
  else CompleteAtOnce.

(** What the parser and the scheduler mean a command to do. *)
Definition intended (a : Action) : Reaction :=
  match type a with
  | write => WriteText (content a)
  | draw => DrawShape (content a)
  | highlight => HighlightText (content a)
  | erase => EraseArea (content a)
  | newpage => TitledPage (content a)
  end.

End Executor.

(** ** Transcript lines (WhiteboardPage.tsx, prepareResponsePlayback) *)

Module Transcript.
Import Parser.

(** [line.replace(/\[(\d{2}):(\d{2})\]/g, '')]: the time stamp pattern is
    tried at every position from left to right; a match is seven
    characters long and is dropped ([skip] counts the characters of it
    still to pass). *)
Fixpoint stripTimestampsFrom (skip : nat) (s : jstring) : jstring :=
  match s with
  | [] => []
  | c :: s' =>
      match skip with
      | S k => stripTimestampsFrom k s'
      | O =>
          match timestampMatch s with
          | Some _ => stripTimestampsFrom (timestampMatchLength - 1) s'
          | None => c :: stripTimestampsFrom O s'
          end
      end
  end.

Definition stripTimestamps (s : jstring) : jstring := stripTimestampsFrom O s.

(** The body of [map]: time stamps out, then commands out, then [trim]. *)
Definition formatLine (line : jstring) : jstring :=
  trim (stripBraces (stripTimestamps line)).

(** The truthiness of a string. *)
Definition nonEmpty (s : jstring) : bool := negb (length s =? 0)%nat.

(** [formattedLines]: what the call appends to the transcript. *)
Definition formattedLines (response : jstring) : list jstring :=
  List.filter nonEmpty
    (map formatLine
         (List.filter (fun line => nonEmpty (trim line)) (split_lines response))).

(** A line whose only time stamp, if any, is the one it starts with, and
    which, if it starts with none, holds no command either. *)
Definition tame (line : jstring) : bool :=
  match timestampMatch line with
  | Some _ =>
      bool_decide (stripTimestamps (drop timestampMatchLength line)
                   = drop timestampMatchLength line)
  | None =>
      bool_decide (stripTimestamps line = line)
      && bool_decide (braceMatches line = [])
  end.

End Transcript.

(** * Properties *)

(** ** Scheduler: what one call can do *)

Section SchedulerSteps.
Import Scheduler.

Lemma effectDispatches_app (o1 o2 : list Effect) :
  effectDispatches (o1 ++ o2) = effectDispatches o1 ++ effectDispatches o2.
Proof.
  induction o1 as [|[a| |d] o1 IH]; simpl; [reflexivity| |assumption|assumption].
  now rewrite IH.
Qed.

Lemma finishCheck_spec (found : bool) (s s' : Synchronizer) (out : list Effect) :
  finishCheck found s = (s', out) ->
  effectDispatches out = []
  /\ actions s' = actions s
  /\ actionBuffer s' = actionBuffer s
  /\ processingAction s' = processingAction s
  /\ lastActionTime s' = lastActionTime s
  /\ startTime s' = startTime s.
Proof.
  unfold finishCheck.
  destruct (_ && (0 <? length (actions s))%nat).
  - intros [= <- <-]. simpl. tauto.
  - destruct (isPlaying s); intros [= <- <-]; simpl; tauto.
Qed.

Lemma claimAction_spec (t : Z) (i : nat) (a : Action) (s s' : Synchronizer)
      (out : list Effect) :
  claimAction t i a s = (s', out) ->
  actions s' = alter markExecuted i (actions s)
  /\ isPlaying s' = isPlaying s
  /\ startTime s' = startTime s
  /\ (if mustBuffer t s
      then out = []
           /\ actionBuffer s' = actionBuffer s ++ [formatAction a]
           /\ processingAction s' = processingAction s
           /\ lastActionTime s' = lastActionTime s
      else out = [ActionCallback (formatAction a)]
           /\ actionBuffer s' = actionBuffer s
           /\ processingAction s' = true
           /\ lastActionTime s' = t).
Proof.
  unfold claimAction. destruct (mustBuffer t s); intros [= <- <-]; simpl; tauto.
Qed.

(** A poll either hands nothing to the executor and leaves the in-flight
    flag as it was, or hands over one command, which it only does with
    the flag down, and raises the flag. *)
Lemma checkActions_dispatch (now : Z) (s s' : Synchronizer) (out : list Effect) :
  checkActions now s = (s', out) ->
  (effectDispatches out = [] /\ processingAction s' = processingAction s)
  \/ (exists a, effectDispatches out = [a]
                /\ processingAction s = false /\ processingAction s' = true).
Proof.
  unfold checkActions.
  destruct (isPlaying s); simpl; [|intros [= <- <-]; now left].
  destruct (processingAction s) eqn:Hp; [intros [= <- <-]; now left|].
  destruct (selectAction _ _) as [[i a]|].
  - destruct (claimAction _ i a s) as [s1 out1] eqn:Hc.
    destruct (finishCheck true s1) as [s2 out2] eqn:Hf.
    intros [= <- <-].
    apply claimAction_spec in Hc as (_ & _ & _ & Hc).
    apply finishCheck_spec in Hf as (Hd & _ & _ & Hp2 & _).
    rewrite effectDispatches_app, Hd, Hp2.
    destruct (mustBuffer _ s).
    + destruct Hc as (-> & _ & -> & _). left. now rewrite Hp.
    + destruct Hc as (-> & _ & -> & _). right. now exists (formatAction a).
  - destruct (finishCheck false s) as [s2 out2] eqn:Hf.
    intros [= <- <-].
    apply finishCheck_spec in Hf as (Hd & _ & _ & Hp2 & _).
    left. simpl. now rewrite Hd, Hp2, Hp.
Qed.

Lemma start_dispatch (now : Z) (s s' : Synchronizer) (out : list Effect) :
  start now s = (s', out) ->
  (effectDispatches out = [] /\ processingAction s' = processingAction s)
  \/ (exists a, effectDispatches out = [a]
                /\ processingAction s = false /\ processingAction s' = true).
Proof. unfold start. intros H. now apply checkActions_dispatch in H. Qed.

(** A completion notification lowers the flag; it raises it again exactly
    when it hands a command to the executor. *)
Lemma notifyActionComplete_dispatch (now : Z) (s s' : Synchronizer)
      (out : list Effect) :
  notifyActionComplete now s = (s', out) ->
  (effectDispatches out = [] /\ processingAction s' = false)
  \/ (exists a, effectDispatches out = [a] /\ processingAction s' = true).
Proof.
  unfold notifyActionComplete. simpl.
  destruct (actionBuffer s) as [|[|c next] rest].
  - intros H. apply checkActions_dispatch in H as [[? ?]|(a & ? & ? & ?)].
    + now left.
    + right. now exists a.
  - intros [= <- <-]. now left.
  - intros [= <- <-]. right. now eexists.
Qed.

Lemma singleFlight_effects (b : bool) (out : list Effect) (log : list LogEntry) :
  singleFlight b (map Did out ++ log)
  = match effectDispatches out with
    | [] => singleFlight b log
    | [_] => negb b && singleFlight true log
    | _ => false
    end
  /\ inFlightAfter b (map Did out ++ log)
     = match effectDispatches out with
       | [] => inFlightAfter b log
       | _ => inFlightAfter true log
       end.
Proof.
  revert b. induction out as [|[a| |d] out IH]; intros b; simpl; auto.
  destruct (IH true) as [-> ->]. simpl.
  destruct (effectDispatches out) as [|? [|? ?]]; simpl; split; try reflexivity;
    now rewrite ?andb_false_r.
Qed.

End SchedulerSteps.

(** ** Single flight *)

Section SingleFlight.
Import Scheduler.

(** The invariant behind single flight: while the log says that a command
    is in flight, [processingAction] is set. *)
Lemma run_singleFlight (evs : list Event) :
  forall (s s' : Synchronizer) (log : list LogEntry) (b : bool),
    (b = true -> processingAction s = true) ->
    run evs s = (s', log) ->
    singleFlight b log = true
    /\ (inFlightAfter b log = true -> processingAction s' = true).
Proof.
  induction evs as [|e evs IH]; intros s s' log b Hb; simpl.
  - intros [= <- <-]. simpl. auto.
  - destruct (step e s) as [s1 out] eqn:Hs.
    destruct (run evs s1) as [s2 log2] eqn:Hr.
    intros [= <- <-].
    destruct (singleFlight_effects b out log2) as [Hsf Hif].
    destruct (singleFlight_effects false out log2) as [Hsf0 Hif0].
    destruct e as [now|now|now]; simpl in Hs |- *.
    + apply start_dispatch in Hs as [[Hd Hp]|(a & Hd & Hp & Hp')];
        rewrite Hsf, Hif, Hd.
      * eapply IH; [|exact Hr]. rewrite Hp. exact Hb.
      * destruct b; [specialize (Hb eq_refl); congruence|].
        simpl. eapply IH; [|exact Hr]. auto.
    + apply checkActions_dispatch in Hs as [[Hd Hp]|(a & Hd & Hp & Hp')];
        rewrite Hsf, Hif, Hd.
      * eapply IH; [|exact Hr]. rewrite Hp. exact Hb.
      * destruct b; [specialize (Hb eq_refl); congruence|].
        simpl. eapply IH; [|exact Hr]. auto.
    + apply notifyActionComplete_dispatch in Hs as [[Hd Hp]|(a & Hd & Hp)];
        rewrite Hsf0, Hif0, Hd.
      * eapply IH; [|exact Hr]. discriminate.
      * simpl. eapply IH; [|exact Hr]. auto.
Qed.

(** C1 (single flight).  For every script loaded into a synchronizer and
    every schedule of [start] calls, poll ticks and completion
    notifications: (1) a call that hands a command to the executor hands
    over exactly one and returns with [processingAction] set; (2) in the
    log of the run no command is handed over while an earlier one has not
    been notified complete; (3) as long as the last command handed over
    has not been notified complete, [processingAction] is set. *)
Theorem C1_single_flight (response : jstring) (s0 : Synchronizer)
        (evs : list Event) :
  (forall (e : Event) (s s' : Synchronizer) (out : list Effect),
      step e s = (s', out) ->
      effectDispatches out <> [] ->
      processingAction s' = true /\ length (effectDispatches out) = 1%nat)
  /\ singleFlight false (snd (run evs (loadResponse response s0))) = true
  /\ (inFlightAfter false (snd (run evs (loadResponse response s0))) = true ->
      processingAction (fst (run evs (loadResponse response s0))) = true).
Proof.
  split.
  - intros e s s' out Hs Hne.
    destruct e as [now|now|now]; simpl in Hs.
    + apply start_dispatch in Hs as [[Hd _]|(a & Hd & _ & Hp)]; [congruence|].
      now rewrite Hd.
    + apply checkActions_dispatch in Hs as [[Hd _]|(a & Hd & _ & Hp)]; [congruence|].
      now rewrite Hd.
    + apply notifyActionComplete_dispatch in Hs as [[Hd _]|(a & Hd & Hp)]; [congruence|].
      now rewrite Hd.
  - destruct (run evs (loadResponse response s0)) as [s' log] eqn:Hr. simpl.
    eapply run_singleFlight; [|exact Hr]. discriminate.
Qed.

End SingleFlight.

(** ** Completion *)

Section Completion.
Import Scheduler.

Lemma formatAction_nonempty (a : Action) : formatAction a <> [].
Proof. unfold formatAction. destruct (type a); discriminate. Qed.

Lemma effectCompletions_app (o1 o2 : list Effect) :
  effectCompletions (o1 ++ o2) = (effectCompletions o1 + effectCompletions o2)%nat.
Proof.
  induction o1 as [|[a| |d] o1 IH]; simpl; auto.
Qed.

Lemma completions_effects (out : list Effect) (log : list LogEntry) :
  completions (map Did out ++ log) = (effectCompletions out + completions log)%nat.
Proof.
  induction out as [|[a| |d] out IH]; simpl; auto.
Qed.

Lemma drained_set_isPlaying (b : bool) (s : Synchronizer) :
  drained (set_isPlaying b s) = drained s.
Proof. reflexivity. Qed.

Lemma set_processingAction_id (s : Synchronizer) :
  processingAction s = false -> set_processingAction false s = s.
Proof. destruct s; simpl; intros ->; reflexivity. Qed.

(** A poll of a playing synchronizer with a non-empty timeline ends
    stopped exactly when it ends drained, and calls [onComplete] exactly
    in that case. *)
Lemma checkActions_playing (now : Z) (s s' : Synchronizer) (out : list Effect) :
  actions s <> [] -> bufferOK s -> isPlaying s = true ->
  checkActions now s = (s', out) ->
  actions s' <> [] /\ bufferOK s'
  /\ isPlaying s' = negb (drained s')
  /\ effectCompletions out = ind (drained s').
Proof.
  intros Hne Hb Hp. unfold checkActions. rewrite Hp. simpl.
  destruct (processingAction s) eqn:Hpr.
  { intros [= <- <-]. unfold drained. rewrite Hpr, Hp, andb_false_r. auto. }
  destruct (selectAction _ _) as [[i a]|].
  - destruct (claimAction _ i a s) as [s1 out1] eqn:Hc.
    apply claimAction_spec in Hc as (Ha & Hpl & _ & Hc).
    assert (Hd1 : drained s1 = false).
    { unfold drained. destruct (mustBuffer _ s).
      - destruct Hc as (_ & -> & _). rewrite length_app. simpl.
        replace (length (actionBuffer s) + 1 =? 0)%nat with false
          by (symmetry; apply Nat.eqb_neq; lia).
        now rewrite andb_false_r.
      - destruct Hc as (_ & _ & -> & _). now rewrite andb_false_r. }
    assert (Hne1 : actions s1 <> []).
    { rewrite Ha. intros E. apply (f_equal length) in E.
      rewrite length_alter in E. destruct (actions s); [congruence|discriminate]. }
    assert (Hb1 : bufferOK s1).
    { unfold bufferOK. destruct (mustBuffer _ s).
      - destruct Hc as (_ & -> & _). apply Forall_app. split; [exact Hb|].
        constructor; [apply formatAction_nonempty|constructor].
      - destruct Hc as (_ & -> & _). exact Hb. }
    assert (Ho1 : effectCompletions out1 = 0%nat).
    { destruct (mustBuffer _ s); [destruct Hc as (-> & _)|destruct Hc as (-> & _)];
        reflexivity. }
    unfold finishCheck. fold (drained s1). rewrite Hd1, Hpl, Hp. simpl.
    intros [= <- <-]. rewrite effectCompletions_app, Ho1, Hd1, Hpl, Hp. auto.
  - unfold finishCheck. fold (drained s).
    destruct (drained s) eqn:Hd; simpl.
    + assert (Hl : (0 <? length (actions s))%nat = true).
      { apply Nat.ltb_lt. destruct (actions s); [congruence|simpl; lia]. }
      rewrite Hl. intros [= <- <-]. rewrite drained_set_isPlaying, Hd. auto.
    + rewrite Hp. intros [= <- <-]. rewrite Hd, Hp. auto.
Qed.

(** Polls and completion notifications keep the invariant, and call
    [onComplete] exactly when they take the synchronizer from not drained
    to drained; a drained synchronizer stays drained. *)
Lemma step_completion (e : Event) (s s' : Synchronizer) (out : list Effect) :
  (match e with Start _ => false | _ => true end) = true ->
  completionInv s ->
  step e s = (s', out) ->
  completionInv s'
  /\ (effectCompletions out + ind (drained s))%nat = ind (drained s').
Proof.
  intros He (Hne & Hb & Hpl) Hs. unfold completionInv.
  destruct e as [now|now|now]; [discriminate| |]; simpl in Hs.
  - destruct (isPlaying s) eqn:Hp.
    + destruct (checkActions_playing _ _ _ _ Hne Hb Hp Hs) as (? & ? & ? & ->).
      destruct (drained s); [discriminate|]. simpl. rewrite Nat.add_0_r. auto.
    + unfold checkActions in Hs. rewrite Hp in Hs. simpl in Hs.
      injection Hs as <- <-. rewrite Hp. auto.
  - unfold notifyActionComplete in Hs. simpl in Hs.
    destruct (actionBuffer s) as [|x rest] eqn:Hbuf.
    + destruct (isPlaying s) eqn:Hp.
      * assert (Hb0 : bufferOK (set_processingAction false s)).
        { unfold bufferOK. simpl. rewrite Hbuf. constructor. }
        destruct (checkActions_playing now (set_processingAction false s) s' out
                    Hne Hb0 Hp Hs) as (? & ? & ? & ->).
        destruct (drained s); [discriminate|]. simpl. rewrite Nat.add_0_r. auto.
      * assert (Hpr : processingAction s = false).
        { destruct (drained s) eqn:Hd; [|discriminate].
          unfold drained in Hd. rewrite !andb_true_iff in Hd.
          destruct Hd as [_ Hd]. now destruct (processingAction s). }
        rewrite (set_processingAction_id s Hpr) in Hs.
        unfold checkActions in Hs. rewrite Hp in Hs. simpl in Hs.
        injection Hs as <- <-. rewrite Hp. auto.
    + assert (Hx : x <> []).
      { unfold bufferOK in Hb. rewrite Hbuf in Hb. now inversion Hb. }
      assert (Hd : drained s = false).
      { unfold drained. rewrite Hbuf. simpl. now rewrite andb_false_r. }
      destruct x as [|c x]; [congruence|].
      injection Hs as <- <-. simpl. rewrite Hd. unfold drained. simpl.
      rewrite andb_false_r. rewrite Hd in Hpl. repeat split; auto.
      unfold bufferOK in *. simpl. rewrite Hbuf in Hb. now inversion Hb.
Qed.

Lemma run_completion (evs : list Event) :
  forall (s s' : Synchronizer) (log : list LogEntry),
    noStart evs = true ->
    completionInv s ->
    run evs s = (s', log) ->
    completionInv s'
    /\ (completions log + ind (drained s))%nat = ind (drained s').
Proof.
  induction evs as [|e evs IH]; intros s s' log Hns Hinv; simpl.
  - intros [= <- <-]. auto.
  - simpl in Hns. apply andb_true_iff in Hns as [He Hns].
    destruct (step e s) as [s1 out] eqn:Hs.
    destruct (run evs s1) as [s2 log2] eqn:Hr.
    intros [= <- <-].
    destruct (step_completion e s s1 out He Hinv Hs) as [Hinv1 Hc1].
    destruct (IH s1 s2 log2 Hns Hinv1 Hr) as [Hinv2 Hc2].
    split; [exact Hinv2|].
    destruct e; simpl; rewrite completions_effects; lia.
Qed.

End Completion.

Section CompletionClaims.
Import Scheduler.

(** With an empty timeline the test [this.actions.length > 0] keeps
    [onComplete] from ever being called. *)
Lemma step_empty_timeline (e : Event) (s s' : Synchronizer) (out : list Effect) :
  actions s = [] ->
  step e s = (s', out) ->
  actions s' = [] /\ effectCompletions out = 0%nat.
Proof.
  assert (Hc : forall now s s' out,
             actions s = [] -> checkActions now s = (s', out) ->
             actions s' = [] /\ effectCompletions out = 0%nat).
  { clear. intros now s s' out Ha. unfold checkActions.
    destruct (isPlaying s) eqn:Hp; simpl; [|intros [= <- <-]; auto].
    destruct (processingAction s); [intros [= <- <-]; auto|].
    rewrite Ha. simpl. unfold finishCheck. rewrite Ha. simpl.
    rewrite andb_false_r, Hp. intros [= <- <-]. auto. }
  intros Ha. destruct e as [now|now|now]; simpl.
  - unfold start. apply Hc. exact Ha.
  - apply Hc. exact Ha.
  - unfold notifyActionComplete. simpl.
    destruct (actionBuffer s) as [|[|c x] rest].
    + apply Hc. exact Ha.
    + intros [= <- <-]. auto.
    + intros [= <- <-]. auto.
Qed.

Lemma run_empty_timeline (evs : list Event) :
  forall (s : Synchronizer),
    actions s = [] -> completions (snd (run evs s)) = 0%nat.
Proof.
  induction evs as [|e evs IH]; intros s Ha; simpl; [reflexivity|].
  destruct (step e s) as [s1 out] eqn:Hs.
  destruct (step_empty_timeline e s s1 out Ha Hs) as [Ha1 Ho].
  specialize (IH s1 Ha1). destruct (run evs s1) as [s2 log2]. simpl in *.
  destruct e; rewrite completions_effects; lia.
Qed.

(** C3, as stated, fails: after [start] on the timeline of a script without
    commands every action is executed, the buffer is empty and nothing is
    in flight, yet [onComplete] is never called and the poll goes on. *)
Lemma C3_counterexample_empty_timeline :
  drained (fst (run [Start 0; Tick 250; Tick 500; NotifyActionComplete 600]
                    (loadResponse speechOnlyScript initial))) = true
  /\ isPlaying (fst (run [Start 0; Tick 250; Tick 500; NotifyActionComplete 600]
                         (loadResponse speechOnlyScript initial))) = true
  /\ completions (snd (run [Start 0; Tick 250; Tick 500; NotifyActionComplete 600]
                           (loadResponse speechOnlyScript initial))) = 0%nat.
Proof. vm_compute. auto. Qed.

(** C3 (completion exactly once), amended.  Take any script, load it, call
    [start] and let polls and completion notifications follow in any
    order.  If the timeline is empty, [onComplete] is never called.
    Otherwise the number of [onComplete] calls so far is one if the
    synchronizer is drained (every action executed, buffer empty, nothing
    in flight) and zero if it is not, and playback has stopped exactly in
    the drained case. *)
Theorem C3_completion_exactly_once (response : jstring) (s0 : Synchronizer)
        (now : Z) (evs : list Event) :
  noStart evs = true ->
  completions (snd (run (Start now :: evs) (loadResponse response s0)))
  = match p_actions (Parser.parseResponse response) with
    | [] => 0%nat
    | _ :: _ => ind (drained (fst (run (Start now :: evs) (loadResponse response s0))))
    end
  /\ (p_actions (Parser.parseResponse response) <> [] ->
      isPlaying (fst (run (Start now :: evs) (loadResponse response s0)))
      = negb (drained (fst (run (Start now :: evs) (loadResponse response s0))))).
Proof.
  intros Hns.
  destruct (p_actions (Parser.parseResponse response)) as [|a0 l0] eqn:Hl.
  - split; [|congruence]. apply run_empty_timeline. exact Hl.
  - assert (Hne : actions (loadResponse response s0) <> []).
    { unfold loadResponse. cbn [actions]. rewrite Hl. discriminate. }
    set (s := loadResponse response s0) in *.
    simpl. destruct (start now s) as [s1 out] eqn:Hs.
    assert (H1 : completionInv s1 /\ effectCompletions out = ind (drained s1)).
    { unfold start in Hs.
      apply checkActions_playing in Hs as (? & ? & ? & ?);
        [unfold completionInv; auto|exact Hne|constructor|reflexivity]. }
    destruct H1 as [Hinv1 Ho].
    destruct (run evs s1) as [s2 log2] eqn:Hr. simpl.
    destruct (run_completion evs s1 s2 log2 Hns Hinv1 Hr) as [(_ & _ & Hp2) Hc].
    rewrite completions_effects. split; [lia|intros _; exact Hp2].
Qed.

Lemma C3_completion_exactly_once_witness :
  completions (snd (run [Start 0; Tick 500; NotifyActionComplete 900; Tick 5000;
                         NotifyActionComplete 5600; Tick 5850]
                        (loadResponse exampleScript initial))) = 1%nat.
Proof.
  pose proof (C3_completion_exactly_once exampleScript initial 0
                [Tick 500; NotifyActionComplete 900; Tick 5000;
                 NotifyActionComplete 5600; Tick 5850] eq_refl) as [H _].
  exact H.
Defined.

End CompletionClaims.

(** ** Selection of the action a poll claims *)

Section Selection.
Import Scheduler.

Lemma insert_by_timestamp_perm (x : nat * Action) (l : list (nat * Action)) :
  Permutation (insert_by_timestamp x l) (x :: l).
Proof.
  induction l as [|y l IH]; simpl; [reflexivity|].
  destruct (timestamp (snd x) <=? timestamp (snd y)); [reflexivity|].
  rewrite IH. apply perm_swap.
Qed.

Lemma sortedActions_perm (l : list Action) :
  Permutation (sortedActions l) (imap pair l).
Proof.
  unfold sortedActions. induction (imap pair l) as [|x l' IH]; simpl; [reflexivity|].
  rewrite insert_by_timestamp_perm. now rewrite IH.
Qed.

(** The sorted copy holds the elements of [this.actions], each with its own
    index. *)
Lemma sortedActions_lookup (l : list Action) (i : nat) (a : Action) :
  In (i, a) (sortedActions l) <-> l !! i = Some a.
Proof.
  rewrite <- list_elem_of_In, sortedActions_perm, elem_of_lookup_imap.
  split.
  - intros (j & y & [= -> ->] & H). exact H.
  - intros H. exists i, a. auto.
Qed.

(** The action a poll stops at is an action of the timeline that is not
    executed yet and is due. *)
Lemma selectAction_Some (t : Z) (l : list Action) (i : nat) (a : Action) :
  selectAction t l = Some (i, a) ->
  l !! i = Some a /\ executed a = false /\ timestamp a <= t.
Proof.
  unfold selectAction. intros H. apply find_some in H as [Hin Hdue].
  apply sortedActions_lookup in Hin. unfold due in Hdue. simpl in Hdue.
  apply andb_true_iff in Hdue as [He Ht]. apply Z.leb_le in Ht.
  destruct (executed a); [discriminate|]. auto.
Qed.

Lemma insert_by_timestamp_sorted (x : nat * Action) (l : list (nat * Action)) :
  StronglySorted before l ->
  Forall (fun y => (fst x < fst y)%nat) l ->
  StronglySorted before (insert_by_timestamp x l).
Proof.
  induction 1 as [|y l Hl IH Hy]; intros Hx; simpl.
  - repeat constructor.
  - inversion Hx as [|? ? Hxy Hxl]; subst.
    destruct (timestamp (snd x) <=? timestamp (snd y)) eqn:Hle.
    + apply Z.leb_le in Hle. constructor; [now constructor|].
      constructor.
      * unfold before. destruct (Z.eq_dec (timestamp (snd x)) (timestamp (snd y)));
          [right; auto|left; lia].
      * rewrite Forall_forall in Hy, Hxl |- *. intros z Hz.
        specialize (Hy z Hz). specialize (Hxl z Hz). unfold before in *.
        destruct Hy as [Hy | [Hy _]];
          destruct (Z.eq_dec (timestamp (snd x)) (timestamp (snd z)));
          solve [right; auto | left; lia].
    + apply Z.leb_gt in Hle. constructor; [now apply IH|].
      rewrite insert_by_timestamp_perm. constructor; [|exact Hy].
      left. exact Hle.
Qed.

Lemma imap_pair_indices (l : list Action) :
  forall k : nat,
    StronglySorted (fun x y : nat * Action => (fst x < fst y)%nat)
                   (imap (fun i a => ((k + i)%nat, a)) l)
    /\ Forall (fun x : nat * Action => (k <= fst x)%nat)
              (imap (fun i a => ((k + i)%nat, a)) l).
Proof.
  induction l as [|a l IH]; intros k; simpl.
  - split; constructor.
  - assert (E : imap ((fun i a => ((k + i)%nat, a)) ∘ S) l
                = imap (fun i a => ((S k + i)%nat, a)) l).
    { apply imap_ext. intros i x _. simpl. f_equal. lia. }
    rewrite E. destruct (IH (S k)) as [H1 H2]. split.
    + constructor; [exact H1|].
      eapply Forall_impl; [exact H2|]. simpl. intros x Hx. lia.
    + constructor; [simpl; lia|].
      eapply Forall_impl; [exact H2|]. simpl. intros x Hx. lia.
Qed.

(** The sorted copy is in ascending order of time stamp, and actions with
    the same time stamp keep the order they have in [this.actions]: the
    sort is stable. *)
Lemma sortedActions_sorted (l : list Action) :
  StronglySorted before (sortedActions l).
Proof.
  unfold sortedActions.
  destruct (imap_pair_indices l 0) as [H _].
  change (imap (fun i a => ((0 + i)%nat, a)) l) with (imap pair l) in H.
  induction H as [|x L HL IH Hx]; simpl; [constructor|].
  apply insert_by_timestamp_sorted; [exact IH|].
  assert (P : Permutation (foldr insert_by_timestamp [] L) L).
  { clear. induction L as [|y L IH]; simpl; [reflexivity|].
    now rewrite insert_by_timestamp_perm, IH. }
  now rewrite P.
Qed.

Lemma find_sorted (P : nat * Action -> bool) (l : list (nat * Action))
      (x : nat * Action) :
  StronglySorted before l ->
  find P l = Some x ->
  forall y, In y l -> P y = true -> x = y \/ before x y.
Proof.
  induction 1 as [|z l Hl IH Hz]; simpl; [discriminate|].
  destruct (P z) eqn:Pz.
  - intros [= <-] y [<- | Hy] _; [now left|].
    right. rewrite Forall_forall in Hz. apply Hz. now apply list_elem_of_In.
  - intros Hf y [<- | Hy] Py; [congruence|]. now apply IH.
Qed.

(** The action a poll stops at is the unexecuted action with the least time
    stamp and, among several with that time stamp, the one parsed first. *)
Lemma selectAction_least (t : Z) (l : list Action) (i : nat) (a : Action) :
  selectAction t l = Some (i, a) ->
  forall j b, l !! j = Some b -> executed b = false ->
              (i, a) = (j, b) \/ before (i, a) (j, b).
Proof.
  intros Hsel j b Hl He.
  pose proof (selectAction_Some _ _ _ _ Hsel) as (_ & _ & Ht).
  destruct (Z_le_gt_dec (timestamp b) t) as [Hb | Hb].
  - unfold selectAction in Hsel.
    apply (find_sorted _ _ _ (sortedActions_sorted l) Hsel).
    + now apply sortedActions_lookup.
    + unfold due. simpl. rewrite He. simpl. now apply Z.leb_le.
  - right. left. simpl. lia.
Qed.

(** A poll finds nothing exactly when no unexecuted action is due. *)
Lemma selectAction_None (t : Z) (l : list Action) :
  selectAction t l = None <->
  (forall i a, l !! i = Some a -> executed a = false -> t < timestamp a).
Proof.
  unfold selectAction. split.
  - intros H i a Hl He.
    apply sortedActions_lookup in Hl.
    pose proof (find_none _ _ H _ Hl) as Hd. unfold due in Hd. simpl in Hd.
    rewrite He in Hd. simpl in Hd. apply Z.leb_gt in Hd. exact Hd.
  - intros H. destruct (find _ _) as [[i a]|] eqn:Hf; [|reflexivity].
    apply selectAction_Some in Hf as (Hl & He & Ht).
    specialize (H i a Hl He). lia.
Qed.

Lemma filter_executed_alter (l : list Action) (i : nat) (a : Action) :
  l !! i = Some a -> executed a = false ->
  length (List.filter executed (alter markExecuted i l))
  = S (length (List.filter executed l))
  /\ S (length (List.filter (fun a => negb (executed a)) (alter markExecuted i l)))
     = length (List.filter (fun a => negb (executed a)) l).
Proof.
  revert i. induction l as [|b l IH]; intros i Hl He; [discriminate|].
  destruct i as [|i]; simpl in *.
  - injection Hl as ->. rewrite He. simpl. auto.
  - destruct (IH i Hl He) as [H1 H2].
    change (list_alter markExecuted i l) with (alter markExecuted i l).
    destruct (executed b); simpl; rewrite ?H1, <- ?H2; auto.
Qed.

(** What a poll does when it reaches the loop and stops at an action. *)
Lemma checkActions_claim (now : Z) (s : Synchronizer) (i : nat) (a : Action) :
  isPlaying s = true -> processingAction s = false ->
  selectAction (now - startTime s) (actions s) = Some (i, a) ->
  exists s1 out1,
    claimAction (now - startTime s) i a s = (s1, out1)
    /\ checkActions now s = (s1, out1 ++ [SetTimeout 500]).
Proof.
  intros Hp Hpr Hsel. unfold checkActions. rewrite Hp, Hpr, Hsel. simpl.
  destruct (claimAction _ i a s) as [s1 out1] eqn:Hc.
  exists s1, out1. split; [reflexivity|].
  apply claimAction_spec in Hc as (Ha & Hpl & _ & Hc).
  assert (Hd1 : drained s1 = false).
  { unfold drained. destruct (mustBuffer _ s).
    - destruct Hc as (_ & -> & _). rewrite length_app. simpl.
      replace (length (actionBuffer s) + 1 =? 0)%nat with false
        by (symmetry; apply Nat.eqb_neq; lia).
      now rewrite andb_false_r.
    - destruct Hc as (_ & _ & -> & _). now rewrite andb_false_r. }
  unfold finishCheck. fold (drained s1). rewrite Hd1, Hpl, Hp. reflexivity.
Qed.

End Selection.

(** ** The spacing rule and the progress counters *)

Section Spacing.
Import Scheduler.

(** C5, as stated, fails where it names the in-flight case.  In the
    example script the [write] is fired by [start] and not yet notified
    complete when the poll at 5000 ms finds the [draw] due: the poll
    returns at the in-flight test, before the loop.  Nothing is pushed
    onto the buffer and the [draw] is not marked executed; the poll only
    re-arms its timer. *)
Lemma C5_counterexample_in_flight :
  let s := fst (run [Start 0] (loadResponse exampleScript initial)) in
  processingAction s = true
  /\ selectAction (5000 - startTime s) (actions s)
     = Some (1%nat, mkAction draw (str "circle") 5000 false)
  /\ checkActions 5000 s = (s, [SetTimeout 250])
  /\ actionBuffer (fst (checkActions 5000 s)) = []
  /\ map executed (actions (fst (checkActions 5000 s))) = [true; false].
Proof. vm_compute. auto 10. Qed.

(** C5 (spacing rule), amended.  While playing:
    a poll made while an action is in flight selects nothing: it leaves
    the state as it is (buffer and [executed] flags included), does not
    call the executor and only re-arms the poll timer;
    a poll made with no action in flight that stops at an action (which is
    then a due, unexecuted action of the timeline) appends the rendered
    command to the buffer, without calling the executor, if
    [lastActionTime > 0] and less than 800 ms have passed since; otherwise
    it calls the executor with the command, sets the in-flight flag and
    sets [lastActionTime] to the elapsed time.  Either way the [executed]
    flag of that action, and of no other, is set, and no later poll
    selects it again. *)
Theorem C5_spacing_rule (now : Z) (s : Synchronizer) :
  isPlaying s = true ->
  (processingAction s = true -> checkActions now s = (s, [SetTimeout 250]))
  /\ (processingAction s = false ->
      forall (i : nat) (a : Action),
        selectAction (now - startTime s) (actions s) = Some (i, a) ->
        let elapsedTime := now - startTime s in
        let s' := fst (checkActions now s) in
        let out := snd (checkActions now s) in
        (actions s !! i = Some a /\ executed a = false /\ timestamp a <= elapsedTime)
        /\ (if (0 <? lastActionTime s) && (elapsedTime - lastActionTime s <? 800)
            then actionBuffer s' = actionBuffer s ++ [formatAction a]
                 /\ effectDispatches out = []
                 /\ processingAction s' = false
                 /\ lastActionTime s' = lastActionTime s
            else effectDispatches out = [formatAction a]
                 /\ actionBuffer s' = actionBuffer s
                 /\ processingAction s' = true
                 /\ lastActionTime s' = elapsedTime)
        /\ actions s' !! i = Some (markExecuted a)
        /\ (forall j, j <> i -> actions s' !! j = actions s !! j)
        /\ (forall t j b, selectAction t (actions s') = Some (j, b) -> j <> i)).
Proof.
  intros Hp. split.
  { intros Hpr. unfold checkActions. now rewrite Hp, Hpr. }
  intros Hpr i a Hsel. cbv zeta.
  destruct (checkActions_claim now s i a Hp Hpr Hsel) as (s1 & out1 & Hc & ->).
  simpl fst. simpl snd.
  pose proof (selectAction_Some _ _ _ _ Hsel) as (Hl & He & Ht).
  apply claimAction_spec in Hc as (Ha & _ & _ & Hc).
  assert (Hi : actions s1 !! i = Some (markExecuted a)).
  { rewrite Ha, list_lookup_alter_eq, Hl. reflexivity. }
  split; [auto|]. split.
  - unfold mustBuffer, minActionSpacing in Hc. rewrite Hpr in Hc.
    cbn [orb] in Hc.
    destruct ((0 <? lastActionTime s) && _).
    + destruct Hc as (-> & ? & ? & ?). auto.
    + destruct Hc as (-> & ? & ? & ?). auto.
  - split; [exact Hi|]. split.
    + intros j Hj. rewrite Ha. apply list_lookup_alter_ne. auto.
    + intros t j b Hs2 ->.
      apply selectAction_Some in Hs2 as (Hl2 & He2 & _).
      rewrite Hi in Hl2. injection Hl2 as <-. discriminate.
Qed.

Lemma C5_spacing_rule_witness :
  effectDispatches (snd (checkActions 0 exampleStarted)) = [formatAction exampleFirst]
  /\ processingAction (fst (checkActions 0 exampleStarted)) = true.
Proof.
  pose proof (C5_spacing_rule 0 exampleStarted eq_refl) as [_ H].
  pose proof (H eq_refl 0%nat exampleFirst eq_refl) as (_ & H' & _).
  split; [exact (proj1 H')|exact (proj1 (proj2 (proj2 H')))].
Defined.

(** C10 (a claimed but buffered action counts as completed).  When a poll
    buffers the command of the action it stops at, the executor is not
    called, yet the action is marked executed: [getRemainingActions] no
    longer holds it and is one shorter, and [getProgress] counts one more
    completed action and one less remaining. *)
Theorem C10_buffered_counts_as_completed (now now' : Z) (s : Synchronizer)
        (i : nat) (a : Action) :
  isPlaying s = true -> processingAction s = false ->
  selectAction (now - startTime s) (actions s) = Some (i, a) ->
  mustBuffer (now - startTime s) s = true ->
  let s' := fst (checkActions now s) in
  effectDispatches (snd (checkActions now s)) = []
  /\ actionBuffer s' = actionBuffer s ++ [formatAction a]
  /\ actions s' !! i = Some (markExecuted a)
  /\ executed (markExecuted a) = true
  /\ ~ In (markExecuted a) (getRemainingActions s')
  /\ S (length (getRemainingActions s')) = length (getRemainingActions s)
  /\ totalActions (getProgress now' s') = totalActions (getProgress now' s)
  /\ completedActions (getProgress now' s') = completedActions (getProgress now' s) + 1
  /\ remainingActions (getProgress now' s') = remainingActions (getProgress now' s) - 1.
Proof.
  intros Hp Hpr Hsel Hbuf. cbv zeta.
  destruct (checkActions_claim now s i a Hp Hpr Hsel) as (s1 & out1 & Hc & ->).
  simpl fst. simpl snd.
  pose proof (selectAction_Some _ _ _ _ Hsel) as (Hl & He & Ht).
  apply claimAction_spec in Hc as (Ha & _ & _ & Hc). rewrite Hbuf in Hc.
  destruct Hc as (-> & Hb & _ & _).
  destruct (filter_executed_alter _ _ _ Hl He) as [Hf1 Hf2].
  assert (Hlen : length (actions s1) = length (actions s)).
  { rewrite Ha. apply length_alter. }
  repeat split.
  - exact Hb.
  - rewrite Ha, list_lookup_alter_eq, Hl. reflexivity.
  - unfold getRemainingActions. rewrite filter_In. simpl. intros [_ H]. discriminate.
  - unfold getRemainingActions. rewrite Ha. exact Hf2.
  - unfold getProgress. simpl. now rewrite Hlen.
  - unfold getProgress. cbn [completedActions]. rewrite Ha, Hf1. lia.
  - unfold getProgress. cbn [remainingActions]. rewrite Hlen, Ha, Hf1. lia.
Qed.

Lemma C10_buffered_counts_as_completed_witness :
  effectDispatches (snd (checkActions 1100 spacedState)) = []
  /\ completedActions (getProgress 1100 (fst (checkActions 1100 spacedState))) = 2.
Proof.
  pose proof (C10_buffered_counts_as_completed 1100 1100 spacedState 1%nat
                (mkAction write (str "b") 1000 false)
                eq_refl eq_refl eq_refl eq_refl) as (H1 & _ & _ & _ & _ & _ & _ & H2 & _).
  split; [exact H1|exact H2].
Defined.

End Spacing.

(** ** Completion notifications with nothing in flight; firing order *)

Section Notifications.
Import Scheduler.

(** C4, as stated, fails: in a state reached by an ordinary run, with
    nothing in flight, one more completion notification hands a command to
    the executor, empties the buffer and raises the in-flight flag. *)
Lemma C4_counterexample_duplicate_notification :
  processingAction afterFirstCompletion = false
  /\ actionBuffer afterFirstCompletion = [cmdB]
  /\ effectDispatches (snd (notifyActionComplete 1200 afterFirstCompletion)) = [cmdB]
  /\ actionBuffer (fst (notifyActionComplete 1200 afterFirstCompletion)) = []
  /\ processingAction (fst (notifyActionComplete 1200 afterFirstCompletion)) = true.
Proof. vm_compute. auto 10. Qed.

(** C4 (completion notification with nothing in flight), amended.  The call
    always returns.  With an empty buffer it is exactly a poll at that time,
    hence does nothing at all when playback is not running.  With a
    non-empty buffer it hands the oldest buffered command to the executor
    and raises the in-flight flag; timeline, clock origin and
    [lastActionTime] stay as they are. *)
Theorem C4_notification_nothing_in_flight (now : Z) (s : Synchronizer) :
  processingAction s = false ->
  bufferOK s ->
  match actionBuffer s with
  | [] =>
      notifyActionComplete now s = checkActions now s
      /\ (isPlaying s = false -> notifyActionComplete now s = (s, []))
  | nextAction :: rest =>
      notifyActionComplete now s
      = (set_processingAction true (set_actionBuffer rest s),
         [ActionCallback nextAction])
  end.
Proof.
  intros Hpr Hb. unfold notifyActionComplete.
  rewrite (set_processingAction_id s Hpr).
  destruct (actionBuffer s) as [|x rest] eqn:Hbuf.
  - split; [reflexivity|]. intros Hp. unfold checkActions. now rewrite Hp.
  - unfold bufferOK in Hb. rewrite Hbuf in Hb. inversion Hb as [|? ? Hx _]; subst.
    destruct x as [|c x]; [congruence|]. reflexivity.
Qed.

Lemma C4_notification_nothing_in_flight_witness :
  notifyActionComplete 1200 afterFirstCompletion
  = (set_processingAction true (set_actionBuffer [] afterFirstCompletion),
     [ActionCallback cmdB]).
Proof.
  apply (C4_notification_nothing_in_flight 1200 afterFirstCompletion).
  - reflexivity.
  - unfold bufferOK. repeat constructor. discriminate.
Defined.

(** C2 (monotonic firing) does not hold of the code.  The run below is one
    the timers of the host produce, and every command in it is notified
    complete before the next is handed over.  The second command, due at
    1000 ms, is buffered by the spacing rule while nothing is in flight;
    the poll at 2000 ms fires the third command, due at 2000 ms, past the
    waiting buffer; the second command reaches the executor only
    afterwards.  The time stamps handed over are 1000, 2000, 1000. *)
Theorem C2_firing_order_overtaken :
  map timestamp (actions (loadResponse threeWrites initial)) = [1000; 1000; 2000]
  /\ timersRespected [] 0 overtakingSchedule (loadResponse threeWrites initial) = true
  /\ singleFlight false (snd (run overtakingSchedule (loadResponse threeWrites initial)))
     = true
  /\ dispatched (snd (run overtakingSchedule (loadResponse threeWrites initial)))
     = [cmdA; cmdC; cmdB]
  /\ map (dueAtOf (actions (loadResponse threeWrites initial)))
         (dispatched (snd (run overtakingSchedule (loadResponse threeWrites initial))))
     = [Some 1000; Some 2000; Some 1000]
  /\ ~ nonDecreasing
       (map (dueAtOf (actions (loadResponse threeWrites initial)))
            (dispatched (snd (run overtakingSchedule
                                  (loadResponse threeWrites initial))))).
Proof.
  assert (H : map (dueAtOf (actions (loadResponse threeWrites initial)))
                  (dispatched (snd (run overtakingSchedule
                                        (loadResponse threeWrites initial))))
              = [Some 1000; Some 2000; Some 1000]) by (vm_compute; reflexivity).
  split; [vm_compute; reflexivity|].
  split; [vm_compute; reflexivity|].
  split; [vm_compute; reflexivity|].
  split; [vm_compute; reflexivity|].
  split; [exact H|].
  rewrite H. intros Hnd. specialize (Hnd 1%nat 2000 1000 eq_refl eq_refl). lia.
Qed.

End Notifications.

(** ** Voice activity arbiter: hysteresis and the guard *)

Section Hysteresis.
Import Arbiter.

Lemma sent_app (m : Signal) (o1 o2 : list Effect) :
  sent m (o1 ++ o2) = (sent m o1 + sent m o2)%nat.
Proof. unfold sent. now rewrite List.filter_app, length_app. Qed.

Lemma performed_app (e : Effect) (o1 o2 : list Effect) :
  performed e (o1 ++ o2) = performed e o1 || performed e o2.
Proof. unfold performed. apply existsb_app. Qed.





(** A frame above the threshold, read with detection enabled. *)
Lemma detectSilence_loud (f : Frame) (d : Detector) :
  loudFrame f ->
  speakingFrames (fst (detectSilence f d)) = speakingFrames d + 1
  /\ silenceFrames (fst (detectSilence f d)) = 0
  /\ armedTimers (fst (detectSilence f d)) = armedTimers d
  /\ userSpeakingTimeoutRef (fst (detectSilence f d)) = userSpeakingTimeoutRef d
  /\ nextTimerId (fst (detectSilence f d)) = nextTimerId d
  /\ sent EOS (snd (detectSilence f d)) = 0%nat
  /\ performed (SetIsUserSpeaking false) (snd (detectSilence f d)) = false
  /\ performed (SetIsUserSpeaking true) (snd (detectSilence f d))
     = (minSpeakingFrames <=? speakingFrames d + 1)
       && negb (isUserSpeaking f) && negb (guard f)
  /\ sent INT (snd (detectSilence f d))
     = if (minSpeakingFrames <=? speakingFrames d + 1)
          && negb (isUserSpeaking f) && negb (guard f) && wsOpen f
       then 1%nat else 0%nat.
Proof.
  intros [Hd Ha]. unfold detectSilence, guard, nextFrame. rewrite Hd, Ha.
  destruct (minSpeakingFrames <=? speakingFrames d + 1), (isUserSpeaking f),
    (isSpeaking f), (aiSpeakingCooldown f), (aiResponseInProgress f),
    (lessonInProgress f), (wsOpen f), (isConnected f); simpl; auto 10.
Qed.







End Hysteresis.

Section HysteresisClaims.
Import Arbiter.




End HysteresisClaims.

(** ** Voice activity arbiter: the end-of-speech debounce *)

Section Debounce.
Import Arbiter.

Lemma filter_other_single (id : nat) :
  List.filter (fun x => negb (x =? id)%nat) [id] = [].
Proof. simpl. now rewrite Nat.eqb_refl. Qed.

Lemma clearTimeoutRef_wf (d : Detector) : wfTimers d -> clearTimeoutRef d = [].
Proof.
  intros [[H | (id & Hr & Ha)] _]; unfold clearTimeoutRef.
  - rewrite H. now destruct (userSpeakingTimeoutRef d).
  - rewrite Hr, Ha. apply filter_other_single.
Qed.

(** [detectSilence] itself never sends [EOS]; it touches the timers only on
    a transition from speaking to silent, where it leaves exactly the new
    timer armed. *)
Lemma detectSilence_timers (f : Frame) (d : Detector) :
  wfTimers d ->
  sent EOS (snd (detectSilence f d)) = 0%nat
  /\ if stopsSpeaking f d
     then silenceDetectionDisabled f = false
          /\ aboveThreshold f = false
          /\ maxSilenceFrames < silenceFrames d + 1
          /\ isUserSpeaking f = true
          /\ armedTimers (fst (detectSilence f d)) = [nextTimerId d]
          /\ userSpeakingTimeoutRef (fst (detectSilence f d)) = Some (nextTimerId d)
          /\ nextTimerId (fst (detectSilence f d)) = S (nextTimerId d)
     else armedTimers (fst (detectSilence f d)) = armedTimers d
          /\ userSpeakingTimeoutRef (fst (detectSilence f d)) = userSpeakingTimeoutRef d
          /\ nextTimerId (fst (detectSilence f d)) = nextTimerId d.
Proof.
  intros Hwf. pose proof (clearTimeoutRef_wf d Hwf) as Hclr.
  unfold stopsSpeaking, detectSilence, nextFrame.
  destruct (silenceDetectionDisabled f); [simpl; auto|].
  destruct (aboveThreshold f).
  - destruct (_ && negb (lessonInProgress f)), (wsOpen f), (isConnected f);
      simpl; auto.
  - destruct (maxSilenceFrames <? silenceFrames d + 1) eqn:Hm;
      destruct (isUserSpeaking f), (isConnected f); simpl; rewrite ?Hclr;
      try apply Z.ltb_lt in Hm; auto 10.
Qed.

Lemma step_wfTimers (e : Event) (d : Detector) :
  wfTimers d -> wfTimers (fst (step e d)).
Proof.
  intros Hwf. destruct e as [f|id open]; simpl.
  - destruct (detectSilence_timers f d Hwf) as [_ H].
    destruct (stopsSpeaking f d).
    + destruct H as (_ & _ & _ & _ & Ha & Hr & Hn). split.
      * right. eauto.
      * rewrite Ha, Hn. repeat constructor.
    + destruct H as (Ha & Hr & Hn). unfold wfTimers. now rewrite Ha, Hr, Hn.
  - unfold timerFires. destruct (existsb _ _) eqn:He; [|exact Hwf].
    simpl. destruct Hwf as [[H | (id' & Hr & Ha)] Hb]; unfold wfTimers; simpl.
    + rewrite H in He. discriminate.
    + rewrite Ha in He |- *. simpl in He. rewrite orb_false_r in He.
      apply Nat.eqb_eq in He as ->. rewrite filter_other_single. auto.
Qed.

Lemma run_wfTimers (evs : list Event) :
  forall d : Detector, wfTimers d -> wfTimers (fst (run evs d)).
Proof.
  induction evs as [|e evs IH]; intros d Hwf; simpl; [exact Hwf|].
  pose proof (step_wfTimers e d Hwf) as H1.
  destruct (step e d) as [d1 out]. specialize (IH d1 H1).
  now destruct (run evs d1).
Qed.

(** A loop that reads the user as not speaking never leaves the speaking
    state: it calls [setIsUserSpeaking(false)] at no frame, arms no timer
    and so never sends [EOS]. *)
Lemma run_userSilent (evs : list Event) :
  forall d : Detector,
    wfTimers d -> armedTimers d = [] -> forallb readsUserSilent evs = true ->
    sent EOS (snd (run evs d)) = 0%nat
    /\ armedTimers (fst (run evs d)) = []
    /\ performed (SetIsUserSpeaking false) (snd (run evs d)) = false.
Proof.
  induction evs as [|e evs IH]; intros d Hwf Ha Hu; [simpl; auto|].
  cbn [forallb] in Hu. apply andb_true_iff in Hu as [He Hu].
  pose proof (step_wfTimers e d Hwf) as Hwf1.
  assert (H1 : armedTimers (fst (step e d)) = []
               /\ sent EOS (snd (step e d)) = 0%nat
               /\ performed (SetIsUserSpeaking false) (snd (step e d)) = false).
  { destruct e as [f|id open]; cbn [step readsUserSilent] in *.
    - destruct (detectSilence_timers f d Hwf) as [Hs H].
      fold (stopsSpeaking f d).
      destruct (stopsSpeaking f d).
      + destruct H as (_ & _ & _ & Hsp & _). rewrite Hsp in He. discriminate.
      + destruct H as (-> & _). auto.
    - unfold timerFires. rewrite Ha. simpl. auto. }
  destruct H1 as (Ha1 & Hs1 & Hp1).
  destruct (IH _ Hwf1 Ha1 Hu) as (IH1 & IH2 & IH3).
  cbn [run]. destruct (step e d) as [d1 out]. cbn [fst snd] in *.
  destruct (run evs d1) as [d2 out2]. cbn [fst snd] in *.
  now rewrite sent_app, performed_app, Hs1, Hp1, IH1, IH3.
Qed.

End Debounce.

Section DebounceClaims.
Import Arbiter.

(** C9 (end-of-speech debounce): the loop of the mounted page never gets
    there.  Every frame of a loop reads for [isUserSpeaking] the value of
    the render that started the loop, [false]; the test for the transition
    from speaking to silent asks for [isUserSpeaking] and so never holds.
    Whatever the microphone delivers and whichever timers fire, the loop
    never calls [setIsUserSpeaking(false)], never arms the debounce timer
    and never sends [EOS].  At the failing input, the user speaks (and is
    marked speaking, with [INT] sent), then is silent for 61 frames and
    half a second more: these two effects are all there is. *)
Theorem C9_end_of_speech_never_sent :
  (forall (evs : list Event) (d : Detector),
      wfTimers d -> armedTimers d = [] -> forallb readsUserSilent evs = true ->
      sent EOS (snd (run evs d)) = 0%nat
      /\ armedTimers (fst (run evs d)) = []
      /\ performed (SetIsUserSpeaking false) (snd (run evs d)) = false)
  /\ forallb readsUserSilent speaksThenSilent = true
  /\ List.filter notFrameRequest (snd (run speaksThenSilent initial))
     = [SetIsUserSpeaking true; WsSend INT]
  /\ silenceFrames (fst (run speaksThenSilent initial)) = maxSilenceFrames + 1.
Proof.
  split; [exact run_userSilent|]. vm_compute. repeat split.
Qed.

Lemma C9_end_of_speech_never_sent_witness :
  sent EOS (snd (run speaksThenSilent initial)) = 0%nat
  /\ armedTimers (fst (run speaksThenSilent initial)) = []
  /\ performed (SetIsUserSpeaking false) (snd (run speaksThenSilent initial)) = false.
Proof.
  apply (proj1 C9_end_of_speech_never_sent speaksThenSilent initial).
  - unfold wfTimers. simpl. split; [now left|constructor].
  - reflexivity.
  - vm_compute. reflexivity.
Defined.

End DebounceClaims.

(** ** Parser: the search for [{...}] *)

Section BraceSearch.
Import Parser.

Lemma closeBrace_Some (s body rest : jstring) :
  closeBrace s = Some (body, rest) ->
  s = body ++ rbrace :: rest /\ Forall (fun c => c <> rbrace) body.
Proof.
  revert body rest. induction s as [|c s IH]; intros body rest; simpl; [discriminate|].
  destruct (Ascii.eqb c rbrace) eqn:Hc.
  - intros [= <- <-]. apply Ascii.eqb_eq in Hc as ->. auto.
  - destruct (closeBrace s) as [[b r]|]; [|discriminate].
    intros [= <- <-]. destruct (IH b r eq_refl) as [-> Hb].
    apply Ascii.eqb_neq in Hc. auto.
Qed.

Lemma closeBrace_None (s : jstring) :
  closeBrace s = None <-> Forall (fun c => c <> rbrace) s.
Proof.
  induction s as [|c s IH]; simpl.
  - split; [constructor|reflexivity].
  - destruct (Ascii.eqb c rbrace) eqn:Hc.
    + apply Ascii.eqb_eq in Hc as ->. split; [discriminate|].
      intros H. inversion H; congruence.
    + apply Ascii.eqb_neq in Hc. destruct (closeBrace s) as [[b r]|].
      * split; [discriminate|]. intros H. inversion H as [|? ? _ Hs]; subst.
        apply IH in Hs. discriminate.
      * split; [|reflexivity]. intros _. constructor; [exact Hc|]. now apply IH.
Qed.

Lemma closeBrace_app (body rest : jstring) :
  Forall (fun c => c <> rbrace) body ->
  closeBrace (body ++ rbrace :: rest) = Some (body, rest).
Proof.
  induction 1 as [|c body Hc _ IH]; simpl.
  - reflexivity.
  - apply Ascii.eqb_neq in Hc. now rewrite Hc, IH.
Qed.

(** Characters that are not a closing brace, added at the end, change no
    attempt. *)
Lemma closeBrace_app_r (s ws : jstring) :
  Forall (fun c => c <> rbrace) ws ->
  closeBrace (s ++ ws)
  = match closeBrace s with
    | Some (body, rest) => Some (body, rest ++ ws)
    | None => None
    end.
Proof.
  intros Hws. induction s as [|c s IH]; simpl.
  - now apply closeBrace_None.
  - destruct (Ascii.eqb c rbrace); [reflexivity|].
    rewrite IH. now destruct (closeBrace s) as [[b r]|].
Qed.

Lemma braceAt_app_r (s ws : jstring) :
  s <> [] -> Forall (fun c => c <> rbrace) ws ->
  braceAt (s ++ ws) = braceAt s.
Proof.
  intros Hs Hws. destruct s as [|c s]; [congruence|]. simpl.
  destruct (Ascii.eqb c lbrace); [|reflexivity].
  rewrite closeBrace_app_r by exact Hws.
  now destruct (closeBrace s) as [[[|b body] r]|].
Qed.

Lemma braceAt_Some (s body : jstring) :
  braceAt s = Some body ->
  body <> [] /\ Forall (fun c => c <> rbrace) body
  /\ exists rest, s = lbrace :: body ++ rbrace :: rest.
Proof.
  destruct s as [|c s]; simpl; [discriminate|].
  destruct (Ascii.eqb c lbrace) eqn:Hc; [|discriminate].
  apply Ascii.eqb_eq in Hc as ->.
  destruct (closeBrace s) as [[[|b bs] r]|] eqn:Hcl; try discriminate.
  intros [= <-]. apply closeBrace_Some in Hcl as [-> Hf].
  split; [discriminate|]. split; [exact Hf|]. now exists r.
Qed.

Lemma braceAt_not_lbrace (c : ascii) (s : jstring) :
  c <> lbrace -> braceAt (c :: s) = None.
Proof. intros Hc. simpl. apply Ascii.eqb_neq in Hc. now rewrite Hc. Qed.

Lemma braceAt_cmd (body rest : jstring) :
  body <> [] -> Forall (fun c => c <> rbrace) body ->
  braceAt (lbrace :: body ++ rbrace :: rest) = Some body.
Proof.
  intros Hne Hb. simpl. rewrite closeBrace_app by exact Hb.
  destruct body; [congruence|reflexivity].
Qed.

(** Passing over the characters of a match. *)
Lemma braceMatchesFrom_skip (l r : jstring) (k : nat) :
  braceMatchesFrom (length l + k) (l ++ r) = braceMatchesFrom k r.
Proof. induction l as [|c l IH]; simpl; [reflexivity|exact IH]. Qed.

Lemma stripBracesFrom_skip (l r : jstring) (k : nat) :
  stripBracesFrom (length l + k) (l ++ r) = stripBracesFrom k r.
Proof. induction l as [|c l IH]; simpl; [reflexivity|exact IH]. Qed.

(** Text without an opening brace holds no match and is kept. *)
Lemma braceMatches_text (t r : jstring) :
  Forall (fun c => c <> lbrace) t ->
  braceMatches (t ++ r) = braceMatches r.
Proof.
  unfold braceMatches. induction 1 as [|c t Hc _ IH]; [reflexivity|].
  change ((c :: t) ++ r) with (c :: (t ++ r)).
  cbn [braceMatchesFrom]. now rewrite (braceAt_not_lbrace _ _ Hc).
Qed.

Lemma stripBraces_text (t r : jstring) :
  Forall (fun c => c <> lbrace) t ->
  stripBraces (t ++ r) = t ++ stripBraces r.
Proof.
  unfold stripBraces. induction 1 as [|c t Hc _ IH]; [reflexivity|].
  change ((c :: t) ++ r) with (c :: (t ++ r)).
  cbn [stripBracesFrom]. rewrite (braceAt_not_lbrace _ _ Hc). simpl. now rewrite IH.
Qed.

(** A well-formed [{...}] is matched whole, and removed whole. *)
Lemma braceMatches_cmd (body rest : jstring) :
  body <> [] -> Forall (fun c => c <> rbrace) body ->
  braceMatches (lbrace :: body ++ rbrace :: rest)
  = (lbrace :: body ++ [rbrace]) :: braceMatches rest.
Proof.
  intros Hne Hb. unfold braceMatches. cbn [braceMatchesFrom].
  rewrite (braceAt_cmd body rest Hne Hb). f_equal.
  replace (S (length body)) with (length (body ++ [rbrace]) + 0)%nat
    by (rewrite length_app; simpl; lia).
  replace (body ++ rbrace :: rest) with ((body ++ [rbrace]) ++ rest)
    by (now rewrite <- app_assoc).
  apply braceMatchesFrom_skip.
Qed.

Lemma stripBraces_cmd (body rest : jstring) :
  body <> [] -> Forall (fun c => c <> rbrace) body ->
  stripBraces (lbrace :: body ++ rbrace :: rest) = stripBraces rest.
Proof.
  intros Hne Hb. unfold stripBraces. cbn [stripBracesFrom].
  rewrite (braceAt_cmd body rest Hne Hb).
  replace (S (length body)) with (length (body ++ [rbrace]) + 0)%nat
    by (rewrite length_app; simpl; lia).
  replace (body ++ rbrace :: rest) with ((body ++ [rbrace]) ++ rest)
    by (now rewrite <- app_assoc).
  apply stripBracesFrom_skip.
Qed.

(** What the replacement keeps are characters of the subject. *)
Lemma stripBracesFrom_Forall (P : ascii -> Prop) (s : jstring) :
  forall k, Forall P s -> Forall P (stripBracesFrom k s).
Proof.
  induction s as [|c s IH]; intros k Hs; cbn [stripBracesFrom]; [constructor|].
  inversion Hs as [|? ? Hc Hs']; subst.
  destruct k as [|k]; [|now apply IH].
  destruct (braceAt (c :: s)); [now apply IH|].
  constructor; [exact Hc|now apply IH].
Qed.

(** After the replacement nothing is left for the search to find. *)
Lemma braceMatches_stripBracesFrom (s : jstring) :
  forall k, braceMatches (stripBracesFrom k s) = [].
Proof.
  induction s as [|c s IH]; intros k; [reflexivity|].
  destruct k as [|k]; [|exact (IH k)].
  cbn [stripBracesFrom].
  destruct (braceAt (c :: s)) as [body|] eqn:Hb; [apply IH|].
  unfold braceMatches. cbn [braceMatchesFrom].
  assert (Hn : braceAt (c :: stripBracesFrom 0 s) = None).
  { simpl in Hb |- *. destruct (Ascii.eqb c lbrace); [|reflexivity].
    destruct (closeBrace s) as [[[|b bs] r]|] eqn:Hcl; try discriminate.
    - apply closeBrace_Some in Hcl as [-> _]. simpl.
      change (Ascii.eqb rbrace lbrace) with false. simpl.
      change (Ascii.eqb rbrace rbrace) with true. reflexivity.
    - apply closeBrace_None in Hcl.
      apply (stripBracesFrom_Forall _ _ 0%nat) in Hcl.
      apply closeBrace_None in Hcl. now rewrite Hcl. }
  rewrite Hn. apply IH.
Qed.

End BraceSearch.

(** ** Parser: trimming *)

Section Trimming.
Import Parser.

Lemma whitespace_not_brace (c : ascii) :
  isWhitespace c = true -> c <> lbrace /\ c <> rbrace.
Proof. intros H. split; intros ->; vm_compute in H; discriminate. Qed.

Lemma allWhitespace_no_lbrace (ws : jstring) :
  allWhitespace ws -> Forall (fun c => c <> lbrace) ws.
Proof.
  intros Hws. eapply Forall_impl; [exact Hws|].
  intros c H. now apply whitespace_not_brace.
Qed.

Lemma allWhitespace_no_rbrace (ws : jstring) :
  allWhitespace ws -> Forall (fun c => c <> rbrace) ws.
Proof.
  intros Hws. eapply Forall_impl; [exact Hws|].
  intros c H. now apply whitespace_not_brace.
Qed.

Lemma trimStart_split (s : jstring) :
  exists ws, s = ws ++ trimStart s /\ allWhitespace ws.
Proof.
  induction s as [|c s (ws & Hs & Hws)]; simpl.
  - exists []. split; [reflexivity|constructor].
  - destruct (isWhitespace c) eqn:Hc.
    + exists (c :: ws). split; [simpl; congruence|now constructor].
    + exists []. split; [reflexivity|constructor].
Qed.

Lemma trimEnd_split (s : jstring) :
  exists ws, s = trimEnd s ++ ws /\ allWhitespace ws.
Proof.
  induction s as [|c s (ws & Hs & Hws)]; simpl.
  - exists []. split; [reflexivity|constructor].
  - destruct (trimEnd s) as [|t ts] eqn:Ht.
    + destruct (isWhitespace c) eqn:Hc.
      * exists (c :: ws). simpl in Hs. split; [simpl; congruence|now constructor].
      * exists ws. simpl in *. split; [congruence|exact Hws].
    + exists ws. simpl in Hs |- *. split; [congruence|exact Hws].
Qed.

Lemma trimStart_ws_app (ws s : jstring) :
  allWhitespace ws -> trimStart (ws ++ s) = trimStart s.
Proof. induction 1 as [|c ws Hc _ IH]; simpl; [reflexivity|now rewrite Hc]. Qed.

Lemma trimEnd_allWhitespace (ws : jstring) :
  allWhitespace ws -> trimEnd ws = [].
Proof. induction 1 as [|c ws Hc _ IH]; simpl; [reflexivity|now rewrite IH, Hc]. Qed.

Lemma trimEnd_app_ws (s ws : jstring) :
  allWhitespace ws -> trimEnd (s ++ ws) = trimEnd s.
Proof.
  intros Hws. induction s as [|c s IH]; simpl.
  - now apply trimEnd_allWhitespace.
  - now rewrite IH.
Qed.

Lemma trimStart_allWhitespace (ws : jstring) :
  allWhitespace ws -> trimStart ws = [].
Proof. induction 1 as [|c ws Hc _ IH]; simpl; [reflexivity|now rewrite Hc]. Qed.

Lemma trim_app_ws (s ws : jstring) :
  allWhitespace ws -> trim (s ++ ws) = trim s.
Proof.
  intros Hws. unfold trim. induction s as [|c s IH]; simpl.
  - now rewrite trimStart_allWhitespace.
  - destruct (isWhitespace c); [exact IH|].
    change (c :: s ++ ws) with ((c :: s) ++ ws). now apply trimEnd_app_ws.
Qed.

(** White space around a string does not change what [trim] returns. *)
Lemma trim_pad (ws1 s ws2 : jstring) :
  allWhitespace ws1 -> allWhitespace ws2 -> trim (ws1 ++ s ++ ws2) = trim s.
Proof.
  intros H1 H2. rewrite <- (trim_app_ws s ws2 H2).
  unfold trim. now rewrite trimStart_ws_app.
Qed.

(** A string that starts with a character that is not white space does not
    trim to the empty string. *)
Lemma trim_nonempty (c : ascii) (s : jstring) :
  isWhitespace c = false -> trim (c :: s) <> [].
Proof.
  intros Hc. unfold trim. simpl. rewrite Hc. simpl.
  destruct (trimEnd s); [now rewrite Hc|discriminate].
Qed.

Lemma braceMatchesFrom_no_lbrace (ws : jstring) :
  Forall (fun c => c <> lbrace) ws -> forall k, braceMatchesFrom k ws = [].
Proof.
  induction 1 as [|c ws Hc _ IH]; intros k; [reflexivity|].
  cbn [braceMatchesFrom]. destruct k; [|apply IH].
  rewrite (braceAt_not_lbrace _ _ Hc). apply IH.
Qed.

(** Trailing white space changes neither the matches nor, apart from
    staying where it is, the replacement. *)
Lemma braceMatchesFrom_app_ws (s ws : jstring) :
  allWhitespace ws ->
  forall k, braceMatchesFrom k (s ++ ws) = braceMatchesFrom k s.
Proof.
  intros Hws. induction s as [|c s IH]; intros k.
  - simpl. rewrite braceMatchesFrom_no_lbrace
      by (now apply allWhitespace_no_lbrace). now destruct k.
  - change ((c :: s) ++ ws) with (c :: (s ++ ws)). cbn [braceMatchesFrom].
    destruct k; [|apply IH].
    change (c :: (s ++ ws)) with ((c :: s) ++ ws).
    rewrite braceAt_app_r; [|discriminate|now apply allWhitespace_no_rbrace].
    destruct (braceAt (c :: s)); now rewrite IH.
Qed.

Lemma stripBracesFrom_app_ws (s ws : jstring) :
  allWhitespace ws ->
  forall k, (k <= length s)%nat ->
            stripBracesFrom k (s ++ ws) = stripBracesFrom k s ++ ws.
Proof.
  intros Hws. induction s as [|c s IH]; intros k Hk.
  - simpl in Hk. assert (k = 0%nat) as -> by lia. simpl.
    pose proof (stripBraces_text ws [] (allWhitespace_no_lbrace ws Hws)) as H.
    unfold stripBraces in H. rewrite app_nil_r in H. simpl in H.
    rewrite app_nil_r in H. exact H.
  - change ((c :: s) ++ ws) with (c :: (s ++ ws)). cbn [stripBracesFrom].
    simpl in Hk. destruct k; [|apply IH; lia].
    change (c :: (s ++ ws)) with ((c :: s) ++ ws).
    rewrite braceAt_app_r; [|discriminate|now apply allWhitespace_no_rbrace].
    destruct (braceAt (c :: s)) as [body|] eqn:Hb.
    + apply IH. apply braceAt_Some in Hb as (_ & _ & rest & [= _ ->]).
      rewrite length_app. simpl. lia.
    + simpl. f_equal. apply IH. lia.
Qed.

(** The search finds in the trimmed content what it finds in the content. *)
Lemma braceMatches_trim (s : jstring) : braceMatches (trim s) = braceMatches s.
Proof.
  destruct (trimStart_split s) as (ws1 & H1 & Hws1).
  destruct (trimEnd_split (trimStart s)) as (ws2 & H2 & Hws2).
  fold (trim s) in H2. remember (trim s) as t eqn:Ht.
  rewrite H2 in H1. clear Ht H2. subst s.
  rewrite braceMatches_text by (now apply allWhitespace_no_lbrace).
  unfold braceMatches. now rewrite braceMatchesFrom_app_ws.
Qed.

(** Trimming before the replacement does not change the trimmed result. *)
Lemma trim_stripBraces_trim (s : jstring) :
  trim (stripBraces (trim s)) = trim (stripBraces s).
Proof.
  destruct (trimStart_split s) as (ws1 & H1 & Hws1).
  destruct (trimEnd_split (trimStart s)) as (ws2 & H2 & Hws2).
  fold (trim s) in H2. remember (trim s) as t eqn:Ht.
  rewrite H2 in H1. clear Ht H2. subst s.
  rewrite stripBraces_text by (now apply allWhitespace_no_lbrace).
  unfold stripBraces.
  rewrite stripBracesFrom_app_ws by (auto; lia).
  now rewrite trim_pad.
Qed.

End Trimming.

(** ** Parser: commands that are not recognised *)

Section UnknownCommands.
Import Parser.










(** In the earlier revision every unknown command became a [write] action
    with empty content. *)
Lemma unknown_command_unguarded :
  actionOfUnguarded 1000 (str "{foo}") = [mkAction write [] 1000 false]
  /\ actionOf 1000 (str "{foo}") = [].
Proof. vm_compute. auto. Qed.



End UnknownCommands.

(** ** Parser: time stamps and lines of a constructed script *)

Section ConstructedLines.
Import Parser Script.

Lemma digitChar_spec (d : nat) :
  (d < 10)%nat ->
  isDigit (digitChar d) = true
  /\ digitValue (digitChar d) = Z.of_nat d
  /\ Ascii.eqb (digitChar d) newline = false.
Proof.
  intros H. do 10 (destruct d as [|d]; [vm_compute; auto|]). lia.
Qed.

Lemma span_all (p : ascii -> bool) (s : jstring) :
  forallb p s = true -> span p s = (s, []).
Proof.
  induction s as [|c s IH]; simpl; [reflexivity|].
  intros H. apply andb_true_iff in H as [-> H]. now rewrite IH.
Qed.

Lemma span_app (p : ascii -> bool) (s r : jstring) (c : ascii) :
  forallb p s = true -> p c = false -> span p (s ++ c :: r) = (s, c :: r).
Proof.
  intros Hs Hc. induction s as [|x s IH]; simpl.
  - now rewrite Hc.
  - simpl in Hs. apply andb_true_iff in Hs as [-> Hs]. now rewrite IH.
Qed.

Lemma parseInt_twoDigits (n : nat) :
  (n < 100)%nat -> parseInt (twoDigits n) = Z.of_nat n.
Proof.
  intros H.
  assert (H1 : (n / 10 < 10)%nat) by (apply Nat.Div0.div_lt_upper_bound; lia).
  assert (H2 : (n mod 10 < 10)%nat) by (apply Nat.mod_upper_bound; lia).
  destruct (digitChar_spec _ H1) as (Hd1 & Hv1 & _).
  destruct (digitChar_spec _ H2) as (Hd2 & Hv2 & _).
  pose proof (Nat.div_mod_eq n 10) as E.
  unfold parseInt, twoDigits.
  remember (n / 10)%nat as q eqn:Hq. remember (n mod 10)%nat as r eqn:Hr.
  clear Hq Hr.
  rewrite span_all by (cbn [forallb]; now rewrite Hd1, Hd2).
  cbn [fst fold_left]. rewrite Hv1, Hv2. lia.
Qed.

Lemma timestampMatch_renderLine (l : Line) :
  (minutes l < 100)%nat -> (seconds l < 100)%nat ->
  timestampMatch (renderLine l) = Some (twoDigits (minutes l), twoDigits (seconds l))
  /\ drop timestampMatchLength (renderLine l) = renderItems (items l)
  /\ noNewline (renderLine l) = noNewline (renderItems (items l))
  /\ (length (trim (renderLine l)) =? 0)%nat = false.
Proof.
  intros Hm Hs.
  assert (H1 : (minutes l / 10 < 10)%nat) by (apply Nat.Div0.div_lt_upper_bound; lia).
  assert (H2 : (minutes l mod 10 < 10)%nat) by (apply Nat.mod_upper_bound; lia).
  assert (H3 : (seconds l / 10 < 10)%nat) by (apply Nat.Div0.div_lt_upper_bound; lia).
  assert (H4 : (seconds l mod 10 < 10)%nat) by (apply Nat.mod_upper_bound; lia).
  destruct (digitChar_spec _ H1) as (D1 & _ & N1).
  destruct (digitChar_spec _ H2) as (D2 & _ & N2).
  destruct (digitChar_spec _ H3) as (D3 & _ & N3).
  destruct (digitChar_spec _ H4) as (D4 & _ & N4).
  unfold renderLine, twoDigits. cbn [str list_ascii_of_string app].
  repeat split.
  - cbn [timestampMatch]. rewrite D1, D2, D3, D4. reflexivity.
  - cbn [noNewline forallb]. rewrite N1, N2, N3, N4. reflexivity.
  - apply Nat.eqb_neq. intros E. apply length_zero_iff_nil in E.
    revert E. now apply trim_nonempty.
Qed.

Lemma split_lines_single (l : jstring) :
  noNewline l = true -> split_lines l = [l].
Proof.
  induction l as [|c l IH]; simpl; [reflexivity|].
  intros H. apply andb_true_iff in H as [Hc H].
  apply negb_true_iff in Hc. rewrite Hc, IH by exact H. reflexivity.
Qed.

Lemma split_lines_app (l r : jstring) :
  noNewline l = true -> split_lines (l ++ newline :: r) = l :: split_lines r.
Proof.
  induction l as [|c l IH]; simpl.
  - intros _. now rewrite ?Ascii.eqb_refl.
  - intros H. apply andb_true_iff in H as [Hc H].
    apply negb_true_iff in Hc. rewrite Hc, IH by exact H. reflexivity.
Qed.

Lemma split_lines_joinLines (ls : list jstring) :
  ls <> [] -> forallb noNewline ls = true -> split_lines (joinLines ls) = ls.
Proof.
  induction ls as [|l ls IH]; [congruence|]. intros _ H.
  simpl in H. apply andb_true_iff in H as [Hl Hls].
  destruct ls as [|l' ls].
  - simpl. now apply split_lines_single.
  - change (joinLines (l :: l' :: ls)) with (l ++ newline :: joinLines (l' :: ls)).
    rewrite split_lines_app by exact Hl. f_equal. apply IH; [discriminate|exact Hls].
Qed.

End ConstructedLines.

(** ** Parser: the commands of a constructed script *)

Section ConstructedCommands.
Import Parser Script.

Lemma forallb_impl (p q : ascii -> bool) (s : jstring) :
  (forall c, p c = true -> q c = true) -> forallb p s = true -> forallb q s = true.
Proof.
  intros Hpq. induction s as [|c s IH]; simpl; [reflexivity|].
  intros H. apply andb_true_iff in H as [Hc Hs]. now rewrite (Hpq c Hc), IH.
Qed.

Lemma forallb_Forall_neq (x : ascii) (s : jstring) :
  forallb (fun c => negb (Ascii.eqb c x)) s = true -> Forall (fun c => c <> x) s.
Proof.
  induction s as [|c s IH]; simpl; [constructor|].
  intros H. apply andb_true_iff in H as [Hc Hs]. constructor; [|now apply IH].
  apply negb_true_iff in Hc. now apply Ascii.eqb_neq.
Qed.

Lemma isLower_plain (c : ascii) :
  isLower c = true ->
  negb (Ascii.eqb c rbrace) = true /\ negb (Ascii.eqb c newline) = true.
Proof.
  intros H. split; apply negb_true_iff, Ascii.eqb_neq; intros ->;
    vm_compute in H; discriminate.
Qed.

Lemma quotedChar_plain (c : ascii) :
  quotedChar c = true ->
  negb (Ascii.eqb c dquote) = true
  /\ negb (Ascii.eqb c rbrace) = true /\ negb (Ascii.eqb c newline) = true.
Proof.
  unfold quotedChar. intros H.
  apply andb_true_iff in H as [H H3]. apply andb_true_iff in H as [H1 H2]. auto.
Qed.

(** The characters of a valid payload: none closes a brace or a line. *)
Lemma validPayload_chars (k : ActionType) (p : jstring) :
  validPayload k p = true ->
  p <> []
  /\ forallb (fun c => negb (Ascii.eqb c rbrace)) p = true
  /\ forallb (fun c => negb (Ascii.eqb c newline)) p = true.
Proof.
  unfold validPayload. intros H. apply andb_true_iff in H as [Hne Hp].
  split; [destruct p; [discriminate|discriminate]|].
  destruct k; split; (eapply forallb_impl; [|exact Hp]); intros c Hc;
    first [now apply isLower_plain | now apply quotedChar_plain].
Qed.

Lemma commandBody_facts (k : ActionType) (p : jstring) :
  validPayload k p = true ->
  commandBody k p <> []
  /\ Forall (fun c => c <> rbrace) (commandBody k p)
  /\ noNewline (renderCommand k p) = true.
Proof.
  intros H. destruct (validPayload_chars k p H) as (Hne & Hr & Hn).
  split; [destruct k; discriminate|]. split.
  - apply forallb_Forall_neq. unfold commandBody.
    destruct k; rewrite ?forallb_app, Hr; reflexivity.
  - unfold noNewline, renderCommand, commandBody.
    destruct k; cbn [forallb]; rewrite ?forallb_app, Hn; reflexivity.
Qed.

Lemma afterLiteral_app (pre r : jstring) : afterLiteral pre (pre ++ r) = Some r.
Proof.
  induction pre as [|c pre IH]; simpl; [now destruct r|].
  now rewrite Ascii.eqb_refl.
Qed.

Lemma searchFrom_here {A} (attempt : jstring -> option A) (s : jstring) (r : A) :
  attempt s = Some r -> searchFrom attempt s = Some r.
Proof. intros H. destruct s; simpl; now rewrite H. Qed.

(** The regular expression of a quoted form matches the rendered command
    at its start and captures the payload. *)
Lemma quotedAt_render (kw : string) (p : jstring) :
  forallb (fun c => negb (Ascii.eqb c dquote)) p = true ->
  quotedAt kw ((lbrace :: str kw ++ str ":") ++ str " " ++ [dquote]
               ++ (p ++ [dquote]) ++ [rbrace]) = Some p.
Proof.
  intros Hp. unfold quotedAt. rewrite afterLiteral_app.
  cbn [str list_ascii_of_string app span].
  change (isWhitespace " "%char) with true. cbn iota.
  change (isWhitespace dquote) with false. cbn [snd].
  change (Ascii.eqb dquote dquote) with true. cbn iota.
  rewrite <- app_assoc. change ([dquote] ++ [rbrace]) with (dquote :: [rbrace]).
  rewrite span_app; [|exact Hp|reflexivity].
  reflexivity.
Qed.

Lemma drawAt_render (p : jstring) :
  p <> [] -> forallb isLower p = true ->
  drawAt ((lbrace :: str "draw:") ++ p ++ [rbrace]) = Some p.
Proof.
  intros Hne Hp. unfold drawAt. rewrite afterLiteral_app.
  rewrite span_app; [|exact Hp|reflexivity].
  destruct p; [congruence|reflexivity].
Qed.

(** Each command of the grammar is read back as the action it stands for. *)
Lemma actionOf_renderCommand (ts : Z) (k : ActionType) (p : jstring) :
  validPayload k p = true ->
  actionOf ts (renderCommand k p) = [mkAction k p ts false].
Proof.
  unfold validPayload. intros H. apply andb_true_iff in H as [Hne Hp].
  assert (Hq : k <> draw -> forallb (fun c => negb (Ascii.eqb c dquote)) p = true).
  { intros Hk. eapply forallb_impl; [|destruct k; [exact Hp|congruence|exact Hp..]].
    intros c Hc. now apply quotedChar_plain. }
  unfold actionOf, classify.
  destruct k.
  - change (startsWith (renderCommand write p) (str "{write:")) with true. cbn iota.
    rewrite (searchFrom_here _ _ p) by (exact (quotedAt_render "write" p (Hq ltac:(discriminate)))).
    cbn [captureOr]. now rewrite Hne.
  - change (startsWith (renderCommand draw p) (str "{write:")) with false.
    change (startsWith (renderCommand draw p) (str "{draw:")) with true. cbn iota.
    rewrite (searchFrom_here _ _ p)
      by (refine (drawAt_render p _ Hp); destruct p; discriminate).
    cbn [captureOr]. now rewrite Hne.
  - change (startsWith (renderCommand highlight p) (str "{write:")) with false.
    change (startsWith (renderCommand highlight p) (str "{draw:")) with false.
    change (startsWith (renderCommand highlight p) (str "{highlight:")) with true.
    cbn iota.
    rewrite (searchFrom_here _ _ p) by (exact (quotedAt_render "highlight" p (Hq ltac:(discriminate)))).
    cbn [captureOr]. now rewrite Hne.
  - change (startsWith (renderCommand erase p) (str "{write:")) with false.
    change (startsWith (renderCommand erase p) (str "{draw:")) with false.
    change (startsWith (renderCommand erase p) (str "{highlight:")) with false.
    change (startsWith (renderCommand erase p) (str "{erase:")) with true.
    cbn iota.
    rewrite (searchFrom_here _ _ p) by (exact (quotedAt_render "erase" p (Hq ltac:(discriminate)))).
    cbn [captureOr]. now rewrite Hne.
  - change (startsWith (renderCommand newpage p) (str "{write:")) with false.
    change (startsWith (renderCommand newpage p) (str "{draw:")) with false.
    change (startsWith (renderCommand newpage p) (str "{highlight:")) with false.
    change (startsWith (renderCommand newpage p) (str "{erase:")) with false.
    change (startsWith (renderCommand newpage p) (str "{newpage:")) with true.
    cbn iota.
    rewrite (searchFrom_here _ _ p) by (exact (quotedAt_render "newpage" p (Hq ltac:(discriminate)))).
    cbn [captureOr]. now rewrite Hne.
Qed.

End ConstructedCommands.

(** ** Parser round trip *)

Section RoundTrip.
Import Parser Script.

Lemma renderCommand_app (k : ActionType) (p r : jstring) :
  renderCommand k p ++ r = lbrace :: commandBody k p ++ rbrace :: r.
Proof. unfold renderCommand. simpl. now rewrite <- app_assoc. Qed.

Lemma validItems_commands (its : list Item) :
  forallb validItem its = true ->
  Forall (fun kp => validPayload (fst kp) (snd kp) = true) (commandsOf its).
Proof.
  induction its as [|[t|k p] its IH]; simpl; [constructor| |];
    intros H; apply andb_true_iff in H as [H1 H2]; auto.
Qed.

(** What the search and the replacement make of the items of a valid line. *)
Lemma renderItems_facts (its : list Item) :
  forallb validItem its = true ->
  braceMatches (renderItems its) = map renderPair (commandsOf its)
  /\ stripBraces (renderItems its) = textOf its
  /\ noNewline (renderItems its) = true
  /\ (commandsOf its = [] -> renderItems its = textOf its).
Proof.
  induction its as [|[t|k p] its IH]; intros H.
  - repeat split; reflexivity.
  - change (renderItems (Text t :: its)) with (t ++ renderItems its).
    change (commandsOf (Text t :: its)) with (commandsOf its).
    change (textOf (Text t :: its)) with (t ++ textOf its).
    cbn [forallb validItem] in H. apply andb_true_iff in H as [Ht H].
    destruct (IH H) as (I1 & I2 & I3 & I4).
    assert (Hl : Forall (fun c => c <> lbrace) t).
    { apply forallb_Forall_neq. eapply forallb_impl; [|exact Ht].
      unfold textChar. intros c Hc. now apply andb_true_iff in Hc as [? _]. }
    assert (Hn : noNewline t = true).
    { eapply forallb_impl; [|exact Ht].
      unfold textChar. intros c Hc. now apply andb_true_iff in Hc as [_ ?]. }
    repeat split.
    + now rewrite braceMatches_text.
    + now rewrite stripBraces_text, I2.
    + unfold noNewline in *. now rewrite forallb_app, Hn, I3.
    + intros E. now rewrite (I4 E).
  - change (renderItems (Command k p :: its))
      with (renderCommand k p ++ renderItems its).
    change (commandsOf (Command k p :: its)) with ((k, p) :: commandsOf its).
    change (textOf (Command k p :: its)) with (textOf its).
    cbn [forallb validItem] in H. apply andb_true_iff in H as [Hp H].
    destruct (IH H) as (I1 & I2 & I3 & I4).
    destruct (commandBody_facts k p Hp) as (Hne & Hr & Hn).
    repeat split.
    + rewrite renderCommand_app, braceMatches_cmd, I1 by assumption. reflexivity.
    + rewrite renderCommand_app, stripBraces_cmd by assumption. exact I2.
    + unfold noNewline in *. now rewrite forallb_app, Hn, I3.
    + discriminate.
Qed.

Lemma actionOf_commands (ts : Z) (cmds : list (ActionType * jstring)) :
  Forall (fun kp => validPayload (fst kp) (snd kp) = true) cmds ->
  flat_map (actionOf ts) (map renderPair cmds)
  = map (fun kp => mkAction (fst kp) (snd kp) ts false) cmds.
Proof.
  induction 1 as [|[k p] cmds Hk _ IH]; simpl; [reflexivity|].
  unfold renderPair at 1. simpl fst. simpl snd.
  now rewrite (actionOf_renderCommand ts k p Hk), IH.
Qed.

(** What the loop body does with one valid line. *)
Lemma parseLine_renderLine (acc : Acc) (l : Line) :
  validLine l = true -> notBare l = true ->
  parseLine acc (renderLine l)
  = mkAcc (acc_actions acc ++ lineActions l)
          (acc_speech acc ++ lineSpeech (previousTimestamp acc) l)
          (lineTimestamp l).
Proof.
  unfold validLine, notBare. intros H Hbare.
  apply andb_true_iff in H as [H Hits]. apply andb_true_iff in H as [Hm Hs].
  apply Nat.ltb_lt in Hm, Hs.
  destruct (timestampMatch_renderLine l Hm Hs) as (Hts & Hdrop & _ & Hblank).
  destruct (renderItems_facts (items l) Hits) as (Hbm & Hsb & _ & Hnc).
  pose proof (validItems_commands (items l) Hits) as Hcmds.
  unfold parseLine. rewrite Hblank, Hts, Hdrop.
  rewrite !parseInt_twoDigits by assumption. fold (lineTimestamp l).
  rewrite braceMatches_trim, Hbm. unfold lineActions, lineSpeech.
  destruct (commandsOf (items l)) as [|kp cmds] eqn:Hc.
  - simpl map. cbv iota. rewrite (Hnc eq_refl), app_nil_r.
    cbn [length Nat.eqb negb orb] in Hbare.
    destruct (trim (textOf (items l))); [discriminate|reflexivity].
  - change (map renderPair (kp :: cmds))
      with (renderPair kp :: map renderPair cmds). cbv iota.
    change (renderPair kp :: map renderPair cmds) with (map renderPair (kp :: cmds)).
    rewrite (actionOf_commands _ _ Hcmds), trim_stripBraces_trim, Hsb.
    destruct (trim (textOf (items l))); simpl; now rewrite ?app_nil_r.
Qed.

Lemma fold_parseLine (ls : list Line) :
  forall acc : Acc,
    forallb validLine ls = true -> forallb notBare ls = true ->
    acc_actions (fold_left parseLine (map renderLine ls) acc)
    = acc_actions acc ++ constructedActions ls
    /\ acc_speech (fold_left parseLine (map renderLine ls) acc)
       = acc_speech acc ++ constructedSpeech (previousTimestamp acc) ls.
Proof.
  induction ls as [|l ls IH]; intros acc H Hb; simpl.
  - now rewrite !app_nil_r.
  - simpl in H. apply andb_true_iff in H as [Hl Hls].
    simpl in Hb. apply andb_true_iff in Hb as [Hbl Hbls].
    rewrite (parseLine_renderLine acc l Hl Hbl).
    destruct (IH (mkAcc (acc_actions acc ++ lineActions l)
                        (acc_speech acc ++ lineSpeech (previousTimestamp acc) l)
                        (lineTimestamp l)) Hls Hbls) as [-> ->].
    simpl. now rewrite <- !app_assoc.
Qed.

Lemma renderLine_noNewline (l : Line) :
  validLine l = true -> noNewline (renderLine l) = true.
Proof.
  unfold validLine. intros H.
  apply andb_true_iff in H as [H Hits]. apply andb_true_iff in H as [Hm Hs].
  apply Nat.ltb_lt in Hm, Hs.
  destruct (timestampMatch_renderLine l Hm Hs) as (_ & _ & -> & _).
  now destruct (renderItems_facts (items l) Hits) as (_ & _ & ? & _).
Qed.

Lemma formatAction_renderCommand (k : ActionType) (p : jstring) (ts : Z) (e : bool) :
  Scheduler.formatAction (mkAction k p ts e) = renderCommand k p.
Proof.
  unfold Scheduler.formatAction, renderCommand, commandBody.
  destruct k; simpl; now rewrite <- ?app_assoc.
Qed.

End RoundTrip.

Section RoundTripClaims.
Import Parser Script.

(** C6, as stated, fails.  For the command with the empty quoted string
    the construction implies one [write] action; the parser returns none
    (an action without content is only kept for [draw]).  For the quoted
    string with a closing brace the search stops at that brace: again no
    action, and the rest of the command ends up in the speech text.  And
    for a line that is a time stamp and nothing else the construction
    implies no speech segment (the line is empty after stripping), while
    the parser returns one with an empty text: the branch for lines
    without command pushes its segment without the test for an empty text
    that the branch for lines with commands makes. *)
Lemma C6_counterexample_round_trip :
  constructedActions emptyQuoted = [mkAction write [] 1000 false]
  /\ p_actions (parseResponse (renderScript emptyQuoted)) = []
  /\ constructedActions braceQuoted = [mkAction write (str "{x}") 1000 false]
  /\ p_actions (parseResponse (renderScript braceQuoted)) = []
  /\ map text (p_speech (parseResponse (renderScript braceQuoted)))
     = [dquote :: str "}"]
  /\ forallb validLine bareLine = true
  /\ constructedSpeech 0 bareLine = []
  /\ p_speech (parseResponse (renderScript bareLine)) = [mkSpeech [] 7000 (Some 7000)].
Proof. vm_compute. repeat split. Qed.

(** C6 (parser round trip), amended.  Take any script whose lines are a
    time stamp [[MM:SS]] followed by free text (no opening brace, no line
    feed) and commands of the five forms, where a quoted string is not
    empty and holds no double quote, closing brace or line feed, a draw
    token is a non-empty run of lower-case letters, and every line has a
    command or some text other than white space.  Then [parseResponse]
    returns exactly the constructed lists: one action per command, in
    order, due at the time stamp of its line and not executed; and for
    each line whose text without its commands, trimmed, is not empty, one
    speech segment with that text, the time stamp of the line and the
    time since the previous time stamp.  Rendering each parsed action
    gives back the command substrings of the script, character for
    character. *)
Theorem C6_parser_round_trip (ls : list Line) :
  forallb validLine ls = true ->
  forallb notBare ls = true ->
  parseResponse (renderScript ls)
  = mkParsed (constructedActions ls) (constructedSpeech 0 ls)
  /\ map Scheduler.formatAction (p_actions (parseResponse (renderScript ls)))
     = commandSubstrings ls.
Proof.
  intros H Hb.
  assert (E : parseResponse (renderScript ls)
              = mkParsed (constructedActions ls) (constructedSpeech 0 ls)).
  { destruct ls as [|l ls]; [reflexivity|].
    unfold parseResponse, renderScript.
    rewrite split_lines_joinLines.
    - destruct (fold_parseLine (l :: ls) (mkAcc [] [] 0) H Hb) as [-> ->]. reflexivity.
    - discriminate.
    - rewrite forallb_forall in H |- *. intros x Hx.
      apply in_map_iff in Hx as (l' & <- & Hl'). apply renderLine_noNewline. auto. }
  split; [exact E|]. rewrite E. cbn [p_actions].
  unfold constructedActions, commandSubstrings, lineActions.
  clear. induction ls as [|l ls IH]; [reflexivity|].
  simpl. rewrite map_app, IH. f_equal.
  induction (commandsOf (items l)) as [|[k p] cmds IHc]; [reflexivity|].
  simpl. now rewrite formatAction_renderCommand, IHc.
Qed.

Lemma C6_parser_round_trip_witness :
  parseResponse (renderScript exampleLines)
  = mkParsed [mkAction write (str "Hi") 0 false; mkAction draw (str "circle") 5000 false]
             [mkSpeech (str "Hello") 0 (Some 0)]
  /\ map Scheduler.formatAction (p_actions (parseResponse (renderScript exampleLines)))
     = commandSubstrings exampleLines.
Proof. exact (C6_parser_round_trip exampleLines eq_refl eq_refl). Defined.

End RoundTripClaims.

(** * Further properties of the scheduler *)

(** ** What a call does to the timeline, the buffer and the executor *)

Section SchedulerEffects.
Import Scheduler.

Lemma checkActions_effect (now : Z) (s s' : Synchronizer) (out : list Effect) :
  checkActions now s = (s', out) ->
  speech s' = speech s /\ startTime s' = startTime s
  /\ match pollClaim now s with
     | Some (i, a) =>
         selectAction (now - startTime s) (actions s) = Some (i, a)
         /\ actions s' = alter markExecuted i (actions s)
         /\ isPlaying s' = true
         /\ if mustBuffer (now - startTime s) s
            then actionBuffer s' = actionBuffer s ++ [formatAction a]
                 /\ effectDispatches out = []
                 /\ processingAction s' = processingAction s
                 /\ lastActionTime s' = lastActionTime s
            else actionBuffer s' = actionBuffer s
                 /\ effectDispatches out = [formatAction a]
                 /\ processingAction s' = true
                 /\ lastActionTime s' = now - startTime s
     | None =>
         actions s' = actions s /\ actionBuffer s' = actionBuffer s
         /\ effectDispatches out = []
         /\ processingAction s' = processingAction s
         /\ lastActionTime s' = lastActionTime s
     end.
Proof.
  unfold checkActions, pollClaim.
  destruct (isPlaying s) eqn:Hp; simpl; [|intros [= <- <-]; auto 10].
  destruct (processingAction s) eqn:Hpr; simpl; [intros [= <- <-]; auto 10|].
  destruct (selectAction _ _) as [[i a]|] eqn:Hsel.
  - destruct (claimAction _ i a s) as [s1 out1] eqn:Hc.
    destruct (finishCheck true s1) as [s2 out2] eqn:Hf.
    intros [= <- <-].
    assert (Hsp : speech s1 = speech s /\ startTime s1 = startTime s).
    { unfold claimAction in Hc. destruct (mustBuffer _ s); injection Hc as <- _; auto. }
    assert (Hsp2 : speech s2 = speech s1 /\ isPlaying s2 = true).
    { pose proof Hc as Hc'. apply claimAction_spec in Hc' as (_ & Hpl & _ & Hb).
      assert (Hd1 : drained s1 = false).
      { unfold drained. destruct (mustBuffer _ s).
        - destruct Hb as (_ & -> & _). rewrite length_app. simpl.
          replace (length (actionBuffer s) + 1 =? 0)%nat with false
            by (symmetry; apply Nat.eqb_neq; lia).
          now rewrite andb_false_r.
        - destruct Hb as (_ & _ & -> & _). now rewrite andb_false_r. }
      unfold finishCheck in Hf. fold (drained s1) in Hf.
      rewrite Hd1, Hpl, Hp in Hf. simpl in Hf. injection Hf as <- _. split; congruence. }
    apply claimAction_spec in Hc as (Ha & _ & _ & Hb).
    apply finishCheck_spec in Hf as (Hd & Ha2 & Hb2 & Hp2 & Hl2 & Hs2).
    destruct Hsp as [Hsp1 Hst1]. destruct Hsp2 as [Hsp2 Hpl2].
    rewrite effectDispatches_app, Hd, app_nil_r.
    repeat split; try congruence.
    destruct (mustBuffer _ s).
    + destruct Hb as (-> & ? & ? & ?). repeat split; congruence.
    + destruct Hb as (-> & ? & ? & ?). repeat split; congruence.
  - destruct (finishCheck false s) as [s2 out2] eqn:Hf.
    intros [= <- <-].
    assert (Hsp2 : speech s2 = speech s).
    { unfold finishCheck in Hf. destruct (_ && _); [|destruct (isPlaying s)];
        injection Hf as <- _; reflexivity. }
    apply finishCheck_spec in Hf as (Hd & Ha2 & Hb2 & Hp2 & Hl2 & Hs2).
    simpl. rewrite Hd. repeat split; congruence.
Qed.

(** Every call either leaves timeline and buffer alone, or claims one
    action (into the buffer or to the executor), or hands the oldest
    buffered command to the executor. *)
Lemma step_effect (e : Event) (s s' : Synchronizer) (out : list Effect) :
  step e s = (s', out) ->
  speech s' = speech s
  /\ match claimOf e s with
     | Some (i, a) =>
         (exists t, selectAction t (actions s) = Some (i, a))
         /\ actions s' = alter markExecuted i (actions s)
         /\ ((actionBuffer s' = actionBuffer s ++ [formatAction a]
              /\ effectDispatches out = [])
             \/ (actionBuffer s' = actionBuffer s
                 /\ effectDispatches out = [formatAction a]))
     | None =>
         actions s' = actions s
         /\ ((actionBuffer s' = actionBuffer s /\ effectDispatches out = [])
             \/ (exists x rest,
                    actionBuffer s = x :: rest /\ actionBuffer s' = rest
                    /\ effectDispatches out
                       = match x with [] => [] | _ :: _ => [x] end))
     end.
Proof.
  assert (G : forall now s0 s' out,
             checkActions now s0 = (s', out) ->
             speech s' = speech s0
             /\ match pollClaim now s0 with
                | Some (i, a) =>
                    (exists t, selectAction t (actions s0) = Some (i, a))
                    /\ actions s' = alter markExecuted i (actions s0)
                    /\ ((actionBuffer s' = actionBuffer s0 ++ [formatAction a]
                         /\ effectDispatches out = [])
                        \/ (actionBuffer s' = actionBuffer s0
                            /\ effectDispatches out = [formatAction a]))
                | None =>
                    actions s' = actions s0
                    /\ ((actionBuffer s' = actionBuffer s0 /\ effectDispatches out = [])
                        \/ (exists x rest,
                               actionBuffer s0 = x :: rest /\ actionBuffer s' = rest
                               /\ effectDispatches out
                                  = match x with [] => [] | _ :: _ => [x] end))
                end).
  { clear. intros now s0 s' out H. apply checkActions_effect in H as (Hsp & _ & H).
    split; [exact Hsp|]. destruct (pollClaim now s0) as [[i a]|].
    - destruct H as (Hsel & Ha & _ & Hb). split; [eauto|]. split; [exact Ha|].
      destruct (mustBuffer _ s0); [left|right]; tauto.
    - destruct H as (Ha & Hb & Hd & _). auto. }
  destruct e as [now|now|now]; simpl.
  - unfold start. intros H. now apply G in H.
  - apply G.
  - unfold notifyActionComplete. simpl.
    destruct (actionBuffer s) as [|x rest] eqn:Hbuf.
    + intros H. apply G in H. simpl in H. now rewrite Hbuf in H.
    + destruct x as [|c x]; intros [= <- <-]; simpl;
        (split; [reflexivity|]); (split; [reflexivity|]); right; eauto.
Qed.

Lemma dispatched_effects (out : list Effect) (log : list LogEntry) :
  dispatched (map Did out ++ log) = effectDispatches out ++ dispatched log.
Proof.
  induction out as [|[a| |d] out IH]; simpl; auto. now rewrite IH.
Qed.

Lemma run_cons (e : Event) (evs : list Event) (s : Synchronizer) :
  run (e :: evs) s
  = (fst (run evs (fst (step e s))),
     Called e :: map Did (snd (step e s)) ++ snd (run evs (fst (step e s)))).
Proof.
  simpl. destruct (step e s) as [s1 out]. simpl. now destruct (run evs s1).
Qed.

End SchedulerEffects.

(** * Further properties of the parser *)

(** ** The actions the parser can produce *)

Section ParserOutput.
Import Parser.

Lemma span_fst_forallb (p : ascii -> bool) (s : jstring) :
  forallb p (fst (span p s)) = true.
Proof.
  induction s as [|c s IH]; simpl; [reflexivity|].
  destruct (p c) eqn:Hc; [|reflexivity].
  destruct (span p s) as [a b]. simpl in *. now rewrite Hc.
Qed.

Lemma searchFrom_Some {A} (attempt : jstring -> option A) (s : jstring) (r : A) :
  searchFrom attempt s = Some r -> exists s', attempt s' = Some r.
Proof.
  induction s as [|c s IH]; simpl.
  - destruct (attempt []) eqn:E; [intros [= <-]; eauto|discriminate].
  - destruct (attempt (c :: s)) eqn:E; [intros [= <-]; eauto|exact IH].
Qed.

Lemma quotedAt_Some (kw : string) (s captured : jstring) :
  quotedAt kw s = Some captured ->
  forallb (fun c => negb (Ascii.eqb c dquote)) captured = true.
Proof.
  unfold quotedAt. destruct (afterLiteral _ s) as [r|]; [|discriminate].
  destruct (snd (span isWhitespace r)) as [|q r']; [discriminate|].
  destruct (Ascii.eqb q dquote); [|discriminate].
  pose proof (span_fst_forallb (fun c => negb (Ascii.eqb c dquote)) r') as H.
  destruct (span _ r') as [cap tail]. simpl in H.
  destruct tail as [|q' [|b tail]]; try discriminate.
  destruct (_ && _); [|discriminate]. now intros [= <-].
Qed.

Lemma drawAt_Some (s captured : jstring) :
  drawAt s = Some captured ->
  captured <> [] /\ forallb isLower captured = true.
Proof.
  unfold drawAt. destruct (afterLiteral _ s) as [r|]; [|discriminate].
  pose proof (span_fst_forallb isLower r) as H.
  destruct (span isLower r) as [[|c cap] [|b tail]]; try discriminate.
  destruct (Ascii.eqb b rbrace); [|discriminate].
  intros [= <-]. split; [discriminate|exact H].
Qed.

(** The type and content the chain of tests assigns to a matched [{...}]. *)
Lemma classify_spec (m : jstring) :
  match fst (classify m) with
  | draw => forallb isLower (snd (classify m)) = true
  | _ => forallb (fun c => negb (Ascii.eqb c dquote)) (snd (classify m)) = true
  end.
Proof.
  assert (Q : forall kw, forallb (fun c => negb (Ascii.eqb c dquote))
                                 (captureOr (searchFrom (quotedAt kw) m)) = true).
  { intros kw. destruct (searchFrom (quotedAt kw) m) as [c|] eqn:E; [|reflexivity].
    apply searchFrom_Some in E as [s' E]. simpl. now apply quotedAt_Some in E. }
  unfold classify.
  destruct (startsWith m (str "{write:")); [apply Q|].
  destruct (startsWith m (str "{draw:")).
  { simpl. destruct (searchFrom drawAt m) as [c|] eqn:E; [|reflexivity].
    apply searchFrom_Some in E as [s' E]. simpl. now apply drawAt_Some in E. }
  destruct (startsWith m (str "{highlight:")); [apply Q|].
  destruct (startsWith m (str "{erase:")); [apply Q|].
  destruct (startsWith m (str "{newpage:")); [apply Q|].
  reflexivity.
Qed.

Lemma actionOf_wellFormed (ts : Z) (m : jstring) :
  0 <= ts <= 6039000 -> ts mod 1000 = 0 ->
  Forall wellFormed (actionOf ts m).
Proof.
  intros Hts Hmod. unfold actionOf. pose proof (classify_spec m) as H.
  destruct (classify m) as [t c]. simpl in H.
  destruct (negb (length c =? 0)%nat || isDraw t) eqn:E; [|constructor].
  constructor; [|constructor]. unfold wellFormed. simpl.
  repeat split; try assumption; try lia.
  destruct t; try exact H; (split; [|exact H]);
    simpl in E; rewrite orb_false_r in E; destruct c; discriminate.
Qed.

Lemma parseInt_two_digits (a b : ascii) :
  isDigit a = true -> isDigit b = true -> 0 <= parseInt [a; b] <= 99.
Proof.
  intros Ha Hb. unfold parseInt. simpl. rewrite Ha, Hb. simpl.
  unfold isDigit in Ha, Hb. unfold digitValue.
  apply andb_true_iff in Ha as [Ha1 Ha2]. apply andb_true_iff in Hb as [Hb1 Hb2].
  apply N.leb_le in Ha1, Ha2, Hb1, Hb2. lia.
Qed.

Lemma timestampMatch_Some (line mm ss : jstring) :
  timestampMatch line = Some (mm, ss) ->
  0 <= parseInt mm <= 99 /\ 0 <= parseInt ss <= 99.
Proof.
  unfold timestampMatch.
  destruct line as [|o [|m1 [|m2 [|colon [|s1 [|s2 [|c rest]]]]]]]; try discriminate.
  destruct (_ && _) eqn:E; [|discriminate]. intros [= <- <-].
  repeat (apply andb_true_iff in E as [E ?]).
  split; now apply parseInt_two_digits.
Qed.

Lemma parseLine_wellFormed (acc : Acc) (line : jstring) :
  Forall wellFormed (acc_actions acc) ->
  Forall wellFormed (acc_actions (parseLine acc line)).
Proof.
  intros Hacc. unfold parseLine.
  destruct (length (trim line) =? 0)%nat; [exact Hacc|].
  destruct (timestampMatch line) as [[mm ss]|] eqn:Ht; [|exact Hacc].
  apply timestampMatch_Some in Ht as [Hm Hs].
  destruct (braceMatches _) as [|m ms]; [exact Hacc|].
  cbn [acc_actions]. apply Forall_app. split; [exact Hacc|].
  generalize (m :: ms). intros l. induction l as [|x l IH]; simpl; [constructor|].
  apply Forall_app. split; [|exact IH].
  apply actionOf_wellFormed; [lia|]. now rewrite Z.mod_mul.
Qed.

Lemma parseResponse_wellFormed (response : jstring) :
  Forall wellFormed (p_actions (parseResponse response)).
Proof.
  unfold parseResponse. cbn [p_actions].
  assert (G : forall lines acc,
             Forall wellFormed (acc_actions acc) ->
             Forall wellFormed (acc_actions (fold_left parseLine lines acc))).
  { induction lines as [|l lines IH]; intros acc Hacc; [exact Hacc|].
    simpl. apply IH. now apply parseLine_wellFormed. }
  apply G. constructor.
Qed.

(** X9.  Whatever the script, every action the parser returns is not
    executed, is due at a whole number of seconds between 0 and 6039 (what
    [MM:SS] with two digits each can say), and carries a content its kind
    can be rendered with: lower-case letters only for a draw action
    (possibly none), a non-empty string without double quote for the
    others. *)
Theorem X9_parsed_actions_well_formed (response : jstring) :
  Forall wellFormed (p_actions (parseResponse response)).
Proof. apply parseResponse_wellFormed. Qed.

End ParserOutput.

(** ** Stopping, the integrity of the timeline, and what becomes of claims *)

Section SchedulerMore.
Import Scheduler.

Lemma loadResponse_unexecuted (response : jstring) (s0 : Synchronizer) :
  Forall (fun a => executed a = false) (actions (loadResponse response s0)).
Proof.
  unfold loadResponse. cbn [actions].
  eapply Forall_impl; [apply parseResponse_wellFormed|].
  intros a H. apply H.
Qed.

(** A synchronizer that is not playing, holds nothing in flight and has an
    empty buffer does nothing on polls and completion notifications: no
    callback, no timer, no change of state. *)
Lemma run_inert (evs : list Event) (s : Synchronizer) :
  isPlaying s = false -> processingAction s = false -> actionBuffer s = [] ->
  noStart evs = true ->
  run evs s = (s, map Called evs).
Proof.
  intros Hp Hpr Hb. induction evs as [|e evs IH]; intros Hns; [reflexivity|].
  simpl in Hns. apply andb_true_iff in Hns as [He Hns].
  assert (Hs : step e s = (s, [])).
  { destruct e as [now|now|now]; [discriminate| |]; simpl.
    - unfold checkActions. now rewrite Hp.
    - unfold notifyActionComplete. rewrite (set_processingAction_id s Hpr), Hb.
      unfold checkActions. now rewrite Hp. }
  simpl. rewrite Hs, (IH Hns). reflexivity.
Qed.

(** X1.  After [stop], and likewise after [reset], polls that were still
    scheduled and completion notifications that still arrive have no
    effect at all: the executor is not called (not even for commands that
    were waiting in the buffer), [onComplete] is not called, no timer is
    armed and the state stays as [stop] or [reset] left it. *)
Theorem X1_stop_and_reset_silence (s : Synchronizer) (evs : list Event) :
  noStart evs = true ->
  run evs (fst (stop s)) = (fst (stop s), map Called evs)
  /\ run evs (fst (reset s)) = (fst (reset s), map Called evs).
Proof. intros Hns. split; now apply run_inert. Qed.

Lemma X1_stop_and_reset_silence_witness :
  dispatched (snd (run [Tick 1500; NotifyActionComplete 1600; Tick 1750]
                       (fst (stop afterFirstCompletion)))) = [].
Proof.
  rewrite (proj1 (X1_stop_and_reset_silence afterFirstCompletion
                    [Tick 1500; NotifyActionComplete 1600; Tick 1750] eq_refl)).
  reflexivity.
Defined.

Lemma advances_refl (l : list Action) : Forall2 advances l l.
Proof. induction l; constructor; auto. unfold advances. auto. Qed.

Lemma advances_alter (l : list Action) (i : nat) :
  Forall2 advances l (alter markExecuted i l).
Proof.
  revert i. induction l as [|a l IH]; intros i; [constructor|].
  destruct i as [|i]; simpl.
  - constructor; [unfold advances; simpl; auto|apply advances_refl].
  - constructor; [unfold advances; auto|apply IH].
Qed.

Lemma advances_trans (l1 l2 l3 : list Action) :
  Forall2 advances l1 l2 -> Forall2 advances l2 l3 -> Forall2 advances l1 l3.
Proof.
  intros H. revert l3. induction H as [|a b l1 l2 Hab _ IH]; intros l3 H3.
  - inversion H3. constructor.
  - inversion H3 as [|? c ? l3' Hbc H3']; subst. constructor; [|now apply IH].
    unfold advances in *. destruct Hab as (? & ? & ? & ?), Hbc as (? & ? & ? & ?).
    repeat split; try congruence. auto.
Qed.

Lemma advances_completed (l l' : list Action) :
  Forall2 advances l l' ->
  length l' = length l
  /\ (length (List.filter executed l) <= length (List.filter executed l'))%nat
  /\ map formatAction l' = map formatAction l.
Proof.
  induction 1 as [|a b l l' (Ht & Hc & _ & He) _ (IH1 & IH2 & IH3)]; simpl; [auto|].
  split; [congruence|]. split.
  - destruct (executed a); [rewrite He by reflexivity|destruct (executed b)];
      simpl; lia.
  - f_equal; [|exact IH3]. unfold formatAction. now rewrite Ht, Hc.
Qed.

Lemma step_advances (e : Event) (s : Synchronizer) :
  Forall2 advances (actions s) (actions (fst (step e s)))
  /\ speech (fst (step e s)) = speech s.
Proof.
  destruct (step e s) as [s' out] eqn:Hs. simpl.
  apply step_effect in Hs as [Hsp H]. split; [|exact Hsp].
  destruct (claimOf e s) as [[i a]|].
  - destruct H as (_ & -> & _). apply advances_alter.
  - destruct H as (-> & _). apply advances_refl.
Qed.

Lemma run_advances (evs : list Event) :
  forall s : Synchronizer,
    Forall2 advances (actions s) (actions (fst (run evs s)))
    /\ speech (fst (run evs s)) = speech s.
Proof.
  induction evs as [|e evs IH]; intros s.
  - simpl. split; [apply advances_refl|reflexivity].
  - rewrite run_cons. cbn [fst].
    destruct (step_advances e s) as [H1 H2].
    destruct (IH (fst (step e s))) as [H3 H4].
    split; [eapply advances_trans; eassumption|congruence].
Qed.

(** X2.  No sequence of calls to [start], of polls and of completion
    notifications changes the timeline other than by setting [executed]
    flags: the actions keep their number, order, type, content and time
    stamp, an executed action stays executed, the speech list is
    untouched, and so the progress counters keep their total and never
    count backwards. *)
Theorem X2_timeline_integrity (evs : list Event) (s : Synchronizer) (now now' : Z) :
  Forall2 advances (actions s) (actions (fst (run evs s)))
  /\ speech (fst (run evs s)) = speech s
  /\ totalActions (getProgress now' (fst (run evs s))) = totalActions (getProgress now s)
  /\ completedActions (getProgress now s)
     <= completedActions (getProgress now' (fst (run evs s))).
Proof.
  destruct (run_advances evs s) as [H1 H2].
  destruct (advances_completed _ _ H1) as (H3 & H4 & _).
  repeat split; auto.
  - unfold getProgress. cbn [totalActions]. now rewrite H3.
  - unfold getProgress. cbn [completedActions]. lia.
Qed.

End SchedulerMore.

(** ** Conservation of commands and the order of claims *)

Section SchedulerClaims.
Import Scheduler.

Lemma filter_executed_alter_perm (l : list Action) (i : nat) (a : Action) :
  l !! i = Some a -> executed a = false ->
  Permutation (map formatAction (List.filter executed (alter markExecuted i l)))
              (formatAction a :: map formatAction (List.filter executed l)).
Proof.
  revert i. induction l as [|b l IH]; intros i Hl He; [discriminate|].
  destruct i as [|i]; simpl in *.
  - injection Hl as ->. rewrite He. simpl. reflexivity.
  - change (list_alter markExecuted i l) with (alter markExecuted i l).
    specialize (IH i Hl He).
    destruct (executed b); simpl; [|exact IH].
    rewrite IH. apply perm_swap.
Qed.

Lemma step_bufferOK (e : Event) (s : Synchronizer) :
  bufferOK s -> bufferOK (fst (step e s)).
Proof.
  intros Hb. destruct (step e s) as [s' out] eqn:Hs. simpl.
  apply step_effect in Hs as [_ H]. unfold bufferOK in *.
  destruct (claimOf e s) as [[i a]|].
  - destruct H as (_ & _ & [[-> _]|[-> _]]); [|exact Hb].
    apply Forall_app. split; [exact Hb|].
    constructor; [apply formatAction_nonempty|constructor].
  - destruct H as (_ & [[-> _]|(x & rest & Hx & -> & _)]); [exact Hb|].
    rewrite Hx in Hb. now inversion Hb.
Qed.

(** One call keeps the account: what has been handed over so far plus what
    waits in the buffer is what has been claimed so far. *)
Lemma step_account (e : Event) (s : Synchronizer) (D C : list jstring) :
  bufferOK s ->
  Permutation (D ++ actionBuffer s) C ->
  Permutation ((D ++ effectDispatches (snd (step e s))) ++ actionBuffer (fst (step e s)))
              (C ++ match claimOf e s with
                    | Some c => [formatAction (snd c)]
                    | None => []
                    end).
Proof.
  intros Hb HP. destruct (step e s) as [s' out] eqn:Hs. simpl.
  apply step_effect in Hs as [_ H].
  destruct (claimOf e s) as [[i a]|]; simpl.
  - destruct H as (_ & _ & [[-> ->]|[-> ->]]).
    + rewrite app_nil_r, app_assoc. now rewrite HP.
    + rewrite <- HP, <- !app_assoc. apply Permutation_app_head.
      apply Permutation_app_comm.
  - rewrite app_nil_r.
    destruct H as (_ & [[-> ->]|(x & rest & Hx & -> & ->)]).
    + now rewrite app_nil_r.
    + rewrite Hx in HP. unfold bufferOK in Hb. rewrite Hx in Hb.
      inversion Hb as [|? ? Hne _]; subst.
      destruct x as [|c x]; [congruence|].
      now rewrite <- app_assoc.
Qed.

Lemma run_account (evs : list Event) :
  forall (s : Synchronizer) (D C : list jstring),
    bufferOK s ->
    Permutation (D ++ actionBuffer s) C ->
    Permutation (D ++ dispatched (snd (run evs s)) ++ actionBuffer (fst (run evs s)))
                (C ++ map (fun c => formatAction (snd c)) (claims evs s)).
Proof.
  induction evs as [|e evs IH]; intros s D C Hb HP.
  - simpl. now rewrite app_nil_r.
  - rewrite run_cons. cbn [fst snd dispatched]. rewrite dispatched_effects.
    pose proof (step_account e s D C Hb HP) as H1.
    pose proof (IH (fst (step e s)) _ _ (step_bufferOK e s Hb) H1) as H2.
    rewrite <- !app_assoc in H2. rewrite <- !app_assoc.
    etransitivity; [exact H2|].
    apply Permutation_app_head. cbn [claims].
    destruct (claimOf e s); reflexivity.
Qed.

(** The claimed actions are the executed ones that were not executed before. *)
Lemma step_executed (e : Event) (s : Synchronizer) (C : list jstring) :
  Permutation C (map formatAction (List.filter executed (actions s))) ->
  Permutation (C ++ match claimOf e s with
                    | Some c => [formatAction (snd c)]
                    | None => []
                    end)
              (map formatAction (List.filter executed (actions (fst (step e s))))).
Proof.
  intros HP. destruct (step e s) as [s' out] eqn:Hs. simpl.
  apply step_effect in Hs as [_ H].
  destruct (claimOf e s) as [[i a]|]; simpl.
  - destruct H as ([t Hsel] & -> & _).
    apply selectAction_Some in Hsel as (Hl & He & _).
    rewrite (filter_executed_alter_perm _ _ _ Hl He), HP.
    symmetry. apply Permutation_cons_append.
  - destruct H as (-> & _). now rewrite app_nil_r.
Qed.

Lemma run_executed (evs : list Event) :
  forall (s : Synchronizer) (C : list jstring),
    Permutation C (map formatAction (List.filter executed (actions s))) ->
    Permutation (C ++ map (fun c => formatAction (snd c)) (claims evs s))
                (map formatAction (List.filter executed (actions (fst (run evs s))))).
Proof.
  induction evs as [|e evs IH]; intros s C HP.
  - simpl. now rewrite app_nil_r.
  - rewrite run_cons. cbn [fst claims].
    pose proof (IH _ _ (step_executed e s C HP)) as H.
    destruct (claimOf e s) as [c|]; simpl in *.
    + now rewrite <- app_assoc in H.
    + now rewrite app_nil_r in H.
Qed.

Lemma filter_executed_none (l : list Action) :
  Forall (fun a => executed a = false) l -> List.filter executed l = [].
Proof.
  induction 1 as [|a l Ha _ IH]; simpl; [reflexivity|]. now rewrite Ha.
Qed.

Lemma loadResponse_account (response : jstring) (s0 : Synchronizer) (evs : list Event) :
  let r := run evs (loadResponse response s0) in
  Permutation (dispatched (snd r) ++ actionBuffer (fst r))
              (map (fun c => formatAction (snd c)) (claims evs (loadResponse response s0)))
  /\ Permutation (map (fun c => formatAction (snd c)) (claims evs (loadResponse response s0)))
                 (map formatAction (List.filter executed (actions (fst r)))).
Proof.
  intros r. split.
  - apply (run_account evs (loadResponse response s0) [] []); [constructor|].
    reflexivity.
  - apply (run_executed evs (loadResponse response s0) []).
    now rewrite (filter_executed_none _ (loadResponse_unexecuted response s0)).
Qed.

(** X3.  Once a script is loaded, over any sequence of calls to [start],
    of polls and of completion notifications (no [stop], [reset] or new
    [loadResponse] in between), no command is lost, duplicated or
    invented: the commands handed to the executor together with those
    waiting in the buffer are, up to order, the renderings of the actions
    marked executed; their number is the [completedActions] counter; and
    each of them is the rendering of an action of the loaded script. *)
Theorem X3_commands_conserved (response : jstring) (s0 : Synchronizer)
        (evs : list Event) (now : Z) :
  let r := run evs (loadResponse response s0) in
  Permutation (dispatched (snd r) ++ actionBuffer (fst r))
              (map formatAction (List.filter executed (actions (fst r))))
  /\ Z.of_nat (length (dispatched (snd r)) + length (actionBuffer (fst r)))
     = completedActions (getProgress now (fst r))
  /\ (forall c, In c (dispatched (snd r) ++ actionBuffer (fst r)) ->
        In c (map formatAction (p_actions (Parser.parseResponse response)))).
Proof.
  intros r.
  destruct (loadResponse_account response s0 evs) as [H1 H2]. fold r in H1, H2.
  assert (HP : Permutation (dispatched (snd r) ++ actionBuffer (fst r))
                 (map formatAction (List.filter executed (actions (fst r))))).
  { etransitivity; eassumption. }
  split; [exact HP|]. split.
  - unfold getProgress. cbn [completedActions]. f_equal.
    rewrite <- length_app. rewrite (Permutation_length HP). apply length_map.
  - intros c Hc. apply (Permutation_in _ HP) in Hc.
    apply in_map_iff in Hc as (a & <- & Ha). apply List.filter_In in Ha as [Ha _].
    destruct (run_advances evs (loadResponse response s0)) as [Hadv _].
    apply advances_completed in Hadv as (_ & _ & Hf). fold r in Hf.
    change (actions (loadResponse response s0))
      with (p_actions (Parser.parseResponse response)) in Hf.
    rewrite <- Hf. now apply in_map.
Qed.

Lemma claimedInOrder_alter (l : list Action) (i : nat) (a : Action) (t : Z) :
  selectAction t l = Some (i, a) ->
  claimedInOrder l ->
  claimedInOrder (alter markExecuted i l).
Proof.
  intros Hsel Hord i' a' j b Hi' Hj Ha' Hb.
  pose proof (selectAction_Some _ _ _ _ Hsel) as (Hl & He & _).
  assert (Hji : j <> i).
  { intros ->. rewrite list_lookup_alter_eq, Hl in Hj. simpl in Hj.
    injection Hj as <-. discriminate. }
  rewrite list_lookup_alter_ne in Hj by congruence.
  destruct (decide (i' = i)) as [->|Hne].
  - rewrite list_lookup_alter_eq, Hl in Hi'. simpl in Hi'. injection Hi' as <-.
    destruct (selectAction_least _ _ _ _ Hsel j b Hj Hb) as [Heq|Hlt].
    + congruence.
    + exact Hlt.
  - rewrite list_lookup_alter_ne in Hi' by congruence.
    eapply Hord; eassumption.
Qed.

Lemma run_claims_sorted (evs : list Event) :
  forall s : Synchronizer,
    claimedInOrder (actions s) ->
    StronglySorted before (claims evs s)
    /\ Forall (fun c => actions s !! fst c = Some (snd c) /\ executed (snd c) = false)
              (claims evs s).
Proof.
  induction evs as [|e evs IH]; intros s Hord; [split; constructor|].
  cbn [claims].
  destruct (step e s) as [s' out] eqn:Hs.
  pose proof (step_effect _ _ _ _ Hs) as [_ H]. cbn [fst].
  destruct (claimOf e s) as [[i a]|].
  - destruct H as ([t Hsel] & Hact & _).
    pose proof (selectAction_Some _ _ _ _ Hsel) as (Hl & He & _).
    assert (Hord' : claimedInOrder (actions s')).
    { rewrite Hact. eapply claimedInOrder_alter; eassumption. }
    destruct (IH s' Hord') as [Hsorted Hun].
    assert (Hlater : Forall (fun c => actions s !! fst c = Some (snd c)
                                      /\ executed (snd c) = false
                                      /\ before (i, a) c) (claims evs s')).
    { eapply Forall_impl; [exact Hun|]. intros [j b] [Hj Hb]. simpl in *.
      assert (Hji : j <> i).
      { intros ->. rewrite Hact, list_lookup_alter_eq, Hl in Hj. simpl in Hj.
        injection Hj as <-. discriminate. }
      rewrite Hact, list_lookup_alter_ne in Hj by congruence.
      repeat split; auto.
      destruct (selectAction_least _ _ _ _ Hsel j b Hj Hb) as [Heq|Hlt];
        [congruence|exact Hlt]. }
    split.
    + constructor; [exact Hsorted|].
      eapply Forall_impl; [exact Hlater|]. now intros c (_ & _ & Hc).
    + constructor; [auto|].
      eapply Forall_impl; [exact Hlater|]. now intros c (Hc1 & Hc2 & _).
  - destruct H as (Hact & _). rewrite <- Hact. apply IH. now rewrite Hact.
Qed.

Lemma claimedInOrder_unexecuted (l : list Action) :
  Forall (fun a => executed a = false) l -> claimedInOrder l.
Proof.
  intros H i a j b Hi _ Ha _.
  apply list_elem_of_lookup_2 in Hi.
  rewrite Forall_forall in H. specialize (H a Hi). congruence.
Qed.

Lemma claims_NoDup (l : list Action) (cs : list (nat * Action)) :
  StronglySorted before cs ->
  Forall (fun c => l !! fst c = Some (snd c)) cs ->
  NoDup (map fst cs).
Proof.
  induction 1 as [|c cs _ IH Hc]; intros Hl; simpl; [constructor|].
  inversion Hl as [|? ? Hc0 Hcs]; subst.
  constructor; [|now apply IH].
  rewrite list_elem_of_In. intros Hin.
  apply in_map_iff in Hin as (c' & Heq & Hin).
  rewrite List.Forall_forall in Hc, Hcs.
  specialize (Hc c' Hin). specialize (Hcs c' Hin).
  rewrite Heq, Hc0 in Hcs. injection Hcs as Hcs.
  unfold before in Hc. rewrite Hcs in Hc. lia.
Qed.

(** X4.  Once a script is loaded, over any sequence of calls to [start],
    of polls and of completion notifications (no [stop], [reset] or new
    [loadResponse] in between), the polls claim the actions in the order
    of their time stamps, actions with equal time stamps in the order of
    the script, and claim no action twice; the claimed actions are, up to
    order, the commands handed to the executor together with those still
    in the buffer. *)
Theorem X4_claims_in_timestamp_order (response : jstring) (s0 : Synchronizer)
        (evs : list Event) :
  let s := loadResponse response s0 in
  StronglySorted before (claims evs s)
  /\ NoDup (map fst (claims evs s))
  /\ Forall (fun c => p_actions (Parser.parseResponse response) !! fst c = Some (snd c))
            (claims evs s)
  /\ Permutation (dispatched (snd (run evs s)) ++ actionBuffer (fst (run evs s)))
                 (map (fun c => formatAction (snd c)) (claims evs s)).
Proof.
  intros s.
  destruct (run_claims_sorted evs s
              (claimedInOrder_unexecuted _ (loadResponse_unexecuted response s0)))
    as [Hsorted Hun].
  split; [exact Hsorted|]. split; [|split].
  - apply (claims_NoDup (actions s)); [exact Hsorted|].
    eapply Forall_impl; [exact Hun|]. now intros c [Hc _].
  - eapply Forall_impl; [exact Hun|]. now intros c [Hc _].
  - apply (loadResponse_account response s0 evs).
Qed.

End SchedulerClaims.

(** ** Runs in which the executor is not faster than the spacing *)

Section Unhurried.
Import Scheduler.

Lemma checkActions_spaced (now : Z) (s : Synchronizer) :
  actionBuffer s = [] -> spaced now s ->
  actionBuffer (fst (checkActions now s)) = []
  /\ spaced now (fst (checkActions now s))
  /\ effectDispatches (snd (checkActions now s))
     = match pollClaim now s with
       | Some c => [formatAction (snd c)]
       | None => []
       end.
Proof.
  intros Hb Hsp. destruct (checkActions now s) as [s' out] eqn:Hs. simpl.
  apply checkActions_effect in Hs as (_ & Hst & H).
  destruct (pollClaim now s) as [[i a]|] eqn:Hpoll.
  - destruct H as (_ & _ & _ & H).
    assert (Hpr : processingAction s = false).
    { unfold pollClaim in Hpoll. destruct (isPlaying s), (processingAction s);
        simpl in Hpoll; congruence. }
    assert (Hm : mustBuffer (now - startTime s) s = false).
    { unfold mustBuffer. rewrite Hpr. simpl.
      destruct (Hsp Hpr) as [H0|H0].
      - replace (0 <? lastActionTime s) with false; [reflexivity|].
        symmetry. apply Z.ltb_ge. exact H0.
      - replace (now - startTime s - lastActionTime s <? minActionSpacing) with false;
          [apply andb_false_r|].
        symmetry. apply Z.ltb_ge. lia. }
    rewrite Hm in H. destruct H as (-> & -> & Hpr' & _).
    repeat split; auto. intros Hf. congruence.
  - destruct H as (_ & -> & -> & Hpr' & Hl).
    repeat split; auto. unfold spaced. rewrite Hpr', Hl, Hst. exact Hsp.
Qed.

Lemma step_unhurried (e : Event) (s : Synchronizer) (clock : Z) :
  actionBuffer s = [] ->
  match e with Start _ => True | _ => spaced clock s end ->
  clock <= eventTime e ->
  match e with
  | NotifyActionComplete now =>
      negb (processingAction s)
      || (lastActionTime s + minActionSpacing <=? now - startTime s)
  | _ => true
  end = true ->
  actionBuffer (fst (step e s)) = []
  /\ spaced (eventTime e) (fst (step e s))
  /\ effectDispatches (snd (step e s))
     = match claimOf e s with
       | Some c => [formatAction (snd c)]
       | None => []
       end.
Proof.
  intros Hb Hsp Hclock Hev. destruct e as [now|now|now]; simpl in *.
  - unfold start.
    apply (checkActions_spaced now
             (set_lastActionTime 0 (set_isPlaying true (set_startTime now s))));
      [exact Hb|].
    intros _. left. simpl. lia.
  - apply checkActions_spaced; [exact Hb|].
    intros Hpr. destruct (Hsp Hpr); [left|right]; lia.
  - unfold notifyActionComplete.
    change (actionBuffer (set_processingAction false s)) with (actionBuffer s).
    rewrite Hb.
    apply (checkActions_spaced now (set_processingAction false s)); [exact Hb|].
    intros _. simpl.
    apply orb_true_iff in Hev as [Hev|Hev].
    + apply negb_true_iff in Hev. destruct (Hsp Hev); [left|right]; lia.
    + right. apply Z.leb_le in Hev. exact Hev.
Qed.

Lemma run_unhurried (evs : list Event) :
  forall (s : Synchronizer) (clock : Z),
    actionBuffer s = [] -> spaced clock s ->
    unhurried clock evs s = true ->
    actionBuffer (fst (run evs s)) = []
    /\ dispatched (snd (run evs s)) = map (fun c => formatAction (snd c)) (claims evs s).
Proof.
  induction evs as [|e evs IH]; intros s clock Hb Hsp Hun; [auto|].
  cbn [unhurried] in Hun.
  apply andb_true_iff in Hun as [Hun Hrest].
  apply andb_true_iff in Hun as [Hclock Hev]. apply Z.leb_le in Hclock.
  assert (Hsp0 : match e with Start _ => True | _ => spaced clock s end).
  { now destruct e. }
  destruct (step_unhurried e s clock Hb Hsp0 Hclock Hev) as (Hb1 & Hsp1 & Hd).
  destruct (IH _ _ Hb1 Hsp1 Hrest) as [Hb2 Hd2].
  rewrite run_cons. cbn [fst snd dispatched claims].
  rewrite dispatched_effects, Hd, Hd2.
  split; [exact Hb2|]. now destruct (claimOf e s).
Qed.

(** X5.  If, from [start] on, time does not run backwards and no command
    is notified complete less than 800 ms after it was fired, then nothing
    is ever buffered, each claimed action is handed to the executor by the
    very poll that claims it, and so the commands reach the executor in
    the order of their time stamps (equal time stamps in the order of the
    script). *)
Theorem X5_unhurried_runs_fire_in_order (response : jstring) (s0 : Synchronizer)
        (now : Z) (evs : list Event) :
  unhurried now (Start now :: evs) (loadResponse response s0) = true ->
  let s := loadResponse response s0 in
  let r := run (Start now :: evs) s in
  actionBuffer (fst r) = []
  /\ dispatched (snd r) = map (fun c => formatAction (snd c)) (claims (Start now :: evs) s)
  /\ StronglySorted before (claims (Start now :: evs) s).
Proof.
  intros Hun s r.
  cbn [unhurried] in Hun.
  apply andb_true_iff in Hun as [_ Hrest].
  destruct (step_unhurried (Start now) s now eq_refl I (Z.le_refl _) eq_refl)
    as (Hb1 & Hsp1 & Hd).
  destruct (run_unhurried evs _ _ Hb1 Hsp1 Hrest) as [Hb2 Hd2].
  unfold r. rewrite run_cons. cbn [fst snd dispatched claims].
  rewrite dispatched_effects, Hd, Hd2.
  split; [exact Hb2|]. split.
  - now destruct (claimOf (Start now) s).
  - apply (run_claims_sorted (Start now :: evs) s).
    apply claimedInOrder_unexecuted. apply loadResponse_unexecuted.
Qed.

Lemma X5_unhurried_runs_fire_in_order_witness :
  dispatched (snd (run [Start 0; Tick 250; Tick 500; Tick 750; Tick 1000;
                        Tick 1500; NotifyActionComplete 1800; Tick 2300;
                        NotifyActionComplete 3100; NotifyActionComplete 4000]
                       (loadResponse threeWrites initial)))
  = [cmdA; cmdB; cmdC].
Proof.
  rewrite (proj1 (proj2 (X5_unhurried_runs_fire_in_order threeWrites initial 0
             [Tick 250; Tick 500; Tick 750; Tick 1000;
              Tick 1500; NotifyActionComplete 1800; Tick 2300;
              NotifyActionComplete 3100; NotifyActionComplete 4000] eq_refl))).
  reflexivity.
Defined.

End Unhurried.

(** ** The queries: progress, remaining actions, current speech segment *)

Section Queries.
Import Scheduler.

Lemma filter_executed_split (l : list Action) :
  (length (List.filter executed l)
   + length (List.filter (fun a => negb (executed a)) l))%nat = length l.
Proof.
  induction l as [|a l IH]; simpl; [reflexivity|].
  destruct (executed a); simpl; lia.
Qed.

(** X6.  The progress report and [getRemainingActions] agree on every
    state: the [remainingActions] counter is the length of the list of
    remaining actions, the completed and the remaining actions add up to
    the total, both counters lie between 0 and the total, and the elapsed
    time is reported as 0 unless the synchronizer is playing. *)
Theorem X6_progress_consistent (now : Z) (s : Synchronizer) :
  let p := getProgress now s in
  remainingActions p = Z.of_nat (length (getRemainingActions s))
  /\ completedActions p + remainingActions p = totalActions p
  /\ 0 <= completedActions p <= totalActions p
  /\ (remainingActions p = 0 <-> Forall (fun a => executed a = true) (actions s))
  /\ elapsedTime p = (if isPlaying s then now - startTime s else 0).
Proof.
  unfold getProgress, getRemainingActions. cbn.
  pose proof (filter_executed_split (actions s)) as H.
  split; [lia|]. split; [lia|]. split; [lia|]. split; [|reflexivity].
  split.
  - intros H0.
    assert (Hn : List.filter (fun a => negb (executed a)) (actions s) = []).
    { destruct (List.filter (fun a => negb (executed a)) (actions s)) eqn:E;
        [reflexivity|simpl in H; lia]. }
    rewrite List.Forall_forall. intros a Ha.
    destruct (executed a) eqn:He; [reflexivity|].
    assert (Hin : In a (List.filter (fun a => negb (executed a)) (actions s))).
    { apply List.filter_In. rewrite He. auto. }
    rewrite Hn in Hin. destruct Hin.
  - intros Hall.
    assert (Hn : List.filter (fun a => negb (executed a)) (actions s) = []).
    { clear H. induction Hall as [|a l Ha _ IH]; simpl; [reflexivity|].
      now rewrite Ha. }
    rewrite Hn in H. simpl in H. lia.
Qed.

Lemma find_rev_last {A : Type} (f : A -> bool) (l : list A) :
  match find f (rev l) with
  | Some x =>
      exists i, l !! i = Some x /\ f x = true
                /\ forall j y, (i < j)%nat -> l !! j = Some y -> f y = false
  | None => Forall (fun y => f y = false) l
  end.
Proof.
  induction l as [|a l IH] using rev_ind; [constructor|].
  rewrite rev_unit. simpl. destruct (f a) eqn:Hfa.
  - exists (length l). split; [|split; [exact Hfa|]].
    + rewrite lookup_app_r by lia. now rewrite Nat.sub_diag.
    + intros j y Hj Hl. apply lookup_lt_Some in Hl.
      rewrite length_app in Hl. simpl in Hl. lia.
  - destruct (find f (rev l)) as [x|].
    + destruct IH as (i & Hi & Hfx & Hlater). exists i.
      split; [|split; [exact Hfx|]].
      * rewrite lookup_app_l; [exact Hi|]. now apply lookup_lt_Some in Hi.
      * intros j y Hj Hl.
        destruct (decide (j < length l)%nat) as [Hlt|Hge].
        -- rewrite lookup_app_l in Hl by exact Hlt. eapply Hlater; eassumption.
        -- rewrite lookup_app_r in Hl by lia.
           destruct (j - length l)%nat; simpl in Hl; [|discriminate].
           injection Hl as <-. exact Hfa.
    + apply Forall_app. split; [exact IH|]. constructor; [exact Hfa|constructor].
Qed.

(** X7.  While playing, [getCurrentSpeechSegment] returns the segment of
    the speech list that has started (its time stamp is not after the
    elapsed time) and stands last in the list among those that have
    started; it returns nothing exactly when the synchronizer is not
    playing or no segment has started yet. *)
Theorem X7_current_speech_segment (now : Z) (s : Synchronizer) :
  match getCurrentSpeechSegment now s with
  | Some seg =>
      isPlaying s = true
      /\ exists i, speech s !! i = Some seg
                   /\ seg_timestamp seg <= now - startTime s
                   /\ forall j seg', (i < j)%nat -> speech s !! j = Some seg' ->
                                     now - startTime s < seg_timestamp seg'
  | None =>
      isPlaying s = false
      \/ Forall (fun seg => now - startTime s < seg_timestamp seg) (speech s)
  end.
Proof.
  unfold getCurrentSpeechSegment.
  destruct (isPlaying s); simpl; [|now left].
  destruct (speech s) as [|seg0 sp] eqn:Hsp; [right; constructor|].
  cbn [length Nat.eqb]. rewrite <- Hsp. clear Hsp.
  pose proof (find_rev_last (fun seg => seg_timestamp seg <=? now - startTime s)
                            (speech s)) as H.
  destruct (find _ (rev (speech s))) as [seg|].
  - destruct H as (i & Hi & Hseg & Hlater). split; [reflexivity|].
    exists i. split; [exact Hi|]. split; [now apply Z.leb_le|].
    intros j seg' Hj Hl. specialize (Hlater j seg' Hj Hl). now apply Z.leb_gt.
  - right. eapply Forall_impl; [exact H|]. intros seg Hseg. now apply Z.leb_gt.
Qed.

End Queries.

(** * The commands between parser, scheduler and executor *)

Section CommandForms.
Import Parser Script Scheduler Executor.

(** The regular expression of each command form finds, in the rendering
    of a well-formed action, the content of the action. *)
Lemma search_formatAction (a : Action) :
  wellFormed a ->
  match type a with
  | write => searchFrom (quotedAt "write") (formatAction a) = Some (content a)
  | draw =>
      searchFrom drawAt (formatAction a)
      = match content a with [] => None | _ :: _ => Some (content a) end
  | highlight => searchFrom (quotedAt "highlight") (formatAction a) = Some (content a)
  | erase => searchFrom (quotedAt "erase") (formatAction a) = Some (content a)
  | newpage => searchFrom (quotedAt "newpage") (formatAction a) = Some (content a)
  end.
Proof.
  destruct a as [k p ts e]. intros (_ & _ & _ & H). cbn [type content] in *.
  rewrite formatAction_renderCommand.
  destruct k.
  - apply searchFrom_here. exact (quotedAt_render "write" p (proj2 H)).
  - destruct p as [|c p]; [reflexivity|].
    apply searchFrom_here. apply (drawAt_render (c :: p)); [discriminate|exact H].
  - apply searchFrom_here. exact (quotedAt_render "highlight" p (proj2 H)).
  - apply searchFrom_here. exact (quotedAt_render "erase" p (proj2 H)).
  - apply searchFrom_here. exact (quotedAt_render "newpage" p (proj2 H)).
Qed.

Lemma startsWith_formatAction (a : Action) :
  startsWith (formatAction a) (str "{write:") = bool_decide (type a = write)
  /\ startsWith (formatAction a) (str "{draw:") = bool_decide (type a = draw)
  /\ startsWith (formatAction a) (str "{highlight:") = bool_decide (type a = highlight)
  /\ startsWith (formatAction a) (str "{erase:") = bool_decide (type a = erase)
  /\ startsWith (formatAction a) (str "{newpage:") = bool_decide (type a = newpage).
Proof.
  destruct a as [k p ts e]. unfold formatAction. cbn [type content].
  destruct k; repeat split; reflexivity.
Qed.

Lemma actionOf_formatAction (a : Action) :
  wellFormed a -> actionOf (timestamp a) (formatAction a) = [a].
Proof.
  intros Hwf. pose proof (search_formatAction a Hwf) as Hs.
  destruct (startsWith_formatAction a) as (H1 & H2 & H3 & H4 & H5).
  destruct Hwf as (He & _ & _ & Hc).
  unfold actionOf, classify. rewrite H1, H2, H3, H4, H5.
  destruct a as [k p ts e]. cbn [type content timestamp executed] in *. subst e.
  destruct k; cbn [bool_decide decide_rel] in *; simpl bool_decide; cbn iota;
    rewrite Hs; cbn [captureOr isDraw];
    try (destruct p; [exfalso; exact (proj1 Hc eq_refl)|reflexivity]).
  destruct p; reflexivity.
Qed.

Lemma react_formatAction (a : Action) :
  wellFormed a ->
  react (formatAction a)
  = match type a, content a with
    | draw, [] => Stall
    | _, _ => intended a
    end.
Proof.
  intros Hwf. pose proof (search_formatAction a Hwf) as Hs.
  destruct (startsWith_formatAction a) as (H1 & H2 & H3 & H4 & H5).
  destruct Hwf as (_ & _ & _ & Hc).
  unfold react, intended. rewrite H1, H2, H3, H4, H5.
  destruct a as [k p ts e]. cbn [type content] in *.
  destruct k; simpl bool_decide; cbn iota; rewrite Hs;
    try (destruct p; [exfalso; exact (proj1 Hc eq_refl)|reflexivity]).
  destruct p; reflexivity.
Qed.

(** X8.  Rendering an action the parser returned and reading the
    rendering back with the parser's own command reader gives that action
    again: the scheduler's command text loses nothing of a parsed
    action. *)
Theorem X8_rendering_reads_back (response : jstring) :
  Forall (fun a => actionOf (timestamp a) (formatAction a) = [a])
         (p_actions (parseResponse response)).
Proof.
  eapply Forall_impl; [apply parseResponse_wellFormed|].
  intros a Ha. now apply actionOf_formatAction.
Qed.

(** X10.  The executor understands every command of a parsed script as
    the parser did, with the same payload, save one: a draw action without
    a shape name, which the parser accepts and the scheduler renders as a
    draw command with nothing after the colon, makes the executor take its
    draw branch and then neither animate nor call [onActionComplete].  A
    shape name with a capital letter is enough to get such an action. *)
Theorem X10_executor_agrees_with_parser :
  (forall response : jstring,
      Forall (fun a => react (formatAction a)
                       = match type a, content a with
                         | draw, [] => Stall
                         | _, _ => intended a
                         end)
             (p_actions (parseResponse response)))
  /\ p_actions (parseResponse capitalShape) = [mkAction draw [] 1000 false]
  /\ react (formatAction (mkAction draw [] 1000 false)) = Stall.
Proof.
  split; [|split; reflexivity].
  intros response. eapply Forall_impl; [apply parseResponse_wellFormed|].
  intros a Ha. now apply react_formatAction.
Qed.

End CommandForms.

(** * The parser, line by line *)

Section ParserLines.
Import Parser.

Lemma split_lines_nonempty (s : jstring) : split_lines s <> [].
Proof.
  induction s as [|c s IH]; simpl; [discriminate|].
  destruct (Ascii.eqb c newline); [discriminate|].
  destruct (split_lines s); [congruence|discriminate].
Qed.

Lemma split_lines_newline (a b : jstring) :
  split_lines (a ++ newline :: b) = split_lines a ++ split_lines b.
Proof.
  induction a as [|c a IH].
  - simpl. now rewrite ?Ascii.eqb_refl.
  - cbn [app split_lines]. rewrite IH.
    destruct (Ascii.eqb c newline); [reflexivity|].
    pose proof (split_lines_nonempty a) as Hne.
    destruct (split_lines a); [congruence|reflexivity].
Qed.

Lemma split_lines_noNewline (s : jstring) :
  Forall (fun l => noNewline l = true) (split_lines s).
Proof.
  induction s as [|c s IH]; simpl; [repeat constructor|].
  destruct (Ascii.eqb c newline) eqn:Hc; [constructor; [reflexivity|exact IH]|].
  destruct (split_lines s) as [|l ls]; [repeat constructor; simpl; now rewrite Hc|].
  inversion IH; subst. constructor; [|assumption].
  simpl. rewrite Hc. assumption.
Qed.

(** What a line adds to the actions and to the speech texts does not
    depend on the lines before it. *)
Lemma parseLine_independent (acc : Acc) (line : jstring) :
  acc_actions (parseLine acc line)
  = acc_actions acc ++ acc_actions (parseLine (mkAcc [] [] 0) line)
  /\ map text (acc_speech (parseLine acc line))
     = map text (acc_speech acc) ++ map text (acc_speech (parseLine (mkAcc [] [] 0) line)).
Proof.
  unfold parseLine.
  destruct (length (trim line) =? 0)%nat; [now rewrite !app_nil_r|].
  destruct (timestampMatch line) as [[mm ss]|].
  - destruct (braceMatches _) as [|m ms]; cbn [acc_actions acc_speech].
    + rewrite app_nil_r, map_app. auto.
    + destruct (length _ =? 0)%nat; cbn [app map]; rewrite ?app_nil_r, ?map_app; auto.
  - cbn [acc_actions acc_speech]. rewrite app_nil_r, map_app. auto.
Qed.

Lemma fold_parseLine_independent (lines : list jstring) :
  forall acc : Acc,
    acc_actions (fold_left parseLine lines acc)
    = acc_actions acc ++ acc_actions (fold_left parseLine lines (mkAcc [] [] 0))
    /\ map text (acc_speech (fold_left parseLine lines acc))
       = map text (acc_speech acc)
         ++ map text (acc_speech (fold_left parseLine lines (mkAcc [] [] 0))).
Proof.
  induction lines as [|l lines IH]; intros acc.
  - simpl. now rewrite !app_nil_r.
  - cbn [fold_left].
    destruct (IH (parseLine acc l)) as [H1 H2].
    destruct (IH (parseLine (mkAcc [] [] 0) l)) as [H3 H4].
    destruct (parseLine_independent acc l) as [H5 H6].
    rewrite H1, H2, H3, H4, H5, H6, <- !app_assoc. auto.
Qed.

(** X11.  Lines are parsed independently of one another as far as actions
    and speech texts go: the actions of two scripts joined by a line break
    are the actions of the first followed by those of the second, and
    likewise the texts of the speech segments.  (Only the time stamp of a
    line without time stamp and the duration of a segment look back at the
    lines before.) *)
Theorem X11_scripts_concatenate (a b : jstring) :
  p_actions (parseResponse (a ++ newline :: b))
  = p_actions (parseResponse a) ++ p_actions (parseResponse b)
  /\ map text (p_speech (parseResponse (a ++ newline :: b)))
     = map text (p_speech (parseResponse a)) ++ map text (p_speech (parseResponse b)).
Proof.
  unfold parseResponse. cbn [p_actions p_speech].
  rewrite split_lines_newline, fold_left_app.
  apply fold_parseLine_independent.
Qed.

Lemma trim_idempotent (s : jstring) : trim (trim s) = trim s.
Proof.
  destruct (trimStart_split s) as (ws1 & H1 & Hws1).
  destruct (trimEnd_split (trimStart s)) as (ws2 & H2 & Hws2).
  fold (trim s) in H2.
  rewrite <- (trim_pad ws1 (trim s) ws2 Hws1 Hws2), <- H2, <- H1. reflexivity.
Qed.

(** What every speech segment that leaves the parser looks like. *)
Lemma parseLine_speech (acc : Acc) (line : jstring) :
  let ok seg :=
    trim (text seg) = text seg
    /\ 0 <= seg_timestamp seg <= 6039000
    /\ (duration seg = None -> text seg <> []) in
  Forall ok (acc_speech acc) /\ 0 <= previousTimestamp acc <= 6039000 ->
  Forall ok (acc_speech (parseLine acc line))
  /\ 0 <= previousTimestamp (parseLine acc line) <= 6039000.
Proof.
  intros ok [Hacc Hprev]. unfold parseLine.
  destruct (length (trim line) =? 0)%nat eqn:Hblank; [auto|].
  destruct (timestampMatch line) as [[mm ss]|] eqn:Ht.
  - apply timestampMatch_Some in Ht as [Hm Hs].
    destruct (braceMatches _) as [|m ms]; cbn [acc_speech previousTimestamp].
    + split; [|lia]. apply Forall_app. split; [exact Hacc|].
      constructor; [|constructor]. unfold ok. cbn [text seg_timestamp duration].
      split; [apply trim_idempotent|]. split; [lia|discriminate].
    + split; [|lia].
      destruct (length (trim (stripBraces _)) =? 0)%nat; [exact Hacc|].
      apply Forall_app. split; [exact Hacc|].
      constructor; [|constructor]. unfold ok. cbn [text seg_timestamp duration].
      split; [apply trim_idempotent|]. split; [lia|discriminate].
  - cbn [acc_speech previousTimestamp]. split; [|exact Hprev].
    apply Forall_app. split; [exact Hacc|].
    constructor; [|constructor]. unfold ok. cbn [text seg_timestamp duration].
    split; [apply trim_idempotent|]. split; [exact Hprev|].
    intros _ Hnil. rewrite Hnil in Hblank. discriminate.
Qed.

(** X12.  Every speech segment the parser returns has a text without
    white space at either end and a time stamp between 0 and 6039
    seconds; a segment without duration (a line without time stamp) never
    has an empty text. *)
Theorem X12_speech_segments_trimmed (response : jstring) :
  Forall (fun seg => trim (text seg) = text seg
                     /\ 0 <= seg_timestamp seg <= 6039000
                     /\ (duration seg = None -> text seg <> []))
         (p_speech (parseResponse response)).
Proof.
  unfold parseResponse. cbn [p_speech].
  assert (G : forall lines acc,
             Forall (fun seg => trim (text seg) = text seg
                                /\ 0 <= seg_timestamp seg <= 6039000
                                /\ (duration seg = None -> text seg <> []))
                    (acc_speech acc)
             /\ 0 <= previousTimestamp acc <= 6039000 ->
             Forall (fun seg => trim (text seg) = text seg
                                /\ 0 <= seg_timestamp seg <= 6039000
                                /\ (duration seg = None -> text seg <> []))
                    (acc_speech (fold_left parseLine lines acc))).
  { induction lines as [|l lines IH]; intros acc Hacc; [apply Hacc|].
    simpl. apply IH. now apply parseLine_speech. }
  apply G. split; [constructor|simpl; lia].
Qed.

Lemma parseLine_blank (acc : Acc) (line : jstring) :
  allWhitespace line -> parseLine acc line = acc.
Proof.
  intros H. unfold parseLine, trim.
  now rewrite (trimStart_allWhitespace _ H).
Qed.

Lemma split_lines_allWhitespace (ws : jstring) :
  allWhitespace ws -> Forall allWhitespace (split_lines ws).
Proof.
  induction 1 as [|c ws Hc Hws IH]; simpl; [repeat constructor|].
  destruct (Ascii.eqb c newline); [constructor; [constructor|exact IH]|].
  destruct (split_lines ws) as [|l ls]; [repeat constructor; exact Hc|].
  inversion IH; subst. constructor; [|assumption].
  constructor; assumption.
Qed.

Lemma fold_parseLine_blank (lines : list jstring) (acc : Acc) :
  Forall allWhitespace lines -> fold_left parseLine lines acc = acc.
Proof.
  induction 1 as [|l lines Hl _ IH]; simpl; [reflexivity|].
  now rewrite (parseLine_blank acc l Hl).
Qed.

(** X13.  Blank lines do not count: lines of white space only, put
    between two lines of a script, before its first or after its last
    line, change nothing in what the parser returns. *)
Theorem X13_blank_lines_ignored (a ws b : jstring) :
  allWhitespace ws ->
  parseResponse (a ++ newline :: ws ++ newline :: b) = parseResponse (a ++ newline :: b)
  /\ parseResponse (ws ++ newline :: b) = parseResponse b
  /\ parseResponse (a ++ newline :: ws) = parseResponse a.
Proof.
  intros Hws. pose proof (split_lines_allWhitespace ws Hws) as Hl.
  unfold parseResponse.
  rewrite !split_lines_newline, !fold_left_app.
  rewrite !(fold_parseLine_blank (split_lines ws) _ Hl). auto.
Qed.

Lemma X13_blank_lines_ignored_witness :
  parseResponse (str "[00:01] a" ++ newline :: str "   " ++ newline :: str "[00:02] b")
  = parseResponse (str "[00:01] a" ++ newline :: str "[00:02] b").
Proof.
  apply (X13_blank_lines_ignored (str "[00:01] a") (str "   ") (str "[00:02] b")).
  unfold allWhitespace. repeat constructor.
Defined.

End ParserLines.

(** * A command that is never notified complete *)

Section Waiting.
Import Scheduler.

Lemma step_waiting (e : Event) (s : Synchronizer) :
  processingAction s = true ->
  match e with NotifyActionComplete _ => false | _ => true end = true ->
  processingAction (fst (step e s)) = true
  /\ actions (fst (step e s)) = actions s
  /\ actionBuffer (fst (step e s)) = actionBuffer s
  /\ effectDispatches (snd (step e s)) = []
  /\ effectCompletions (snd (step e s)) = 0%nat.
Proof.
  intros Hp He. destruct e as [now|now|now]; [| |discriminate]; simpl.
  - unfold start, checkActions. cbn. rewrite Hp. cbn. auto.
  - unfold checkActions. destruct (isPlaying s); rewrite ?Hp; cbn; auto.
Qed.

(** X14.  While a command is in flight nothing moves without its
    completion notification: whatever polls are made, and even if [start]
    is called again, no further command is handed to the executor,
    [onComplete] is not called, no action is claimed and the buffer is
    not touched.  A command the executor never completes therefore holds
    up the rest of the lesson for good. *)
Theorem X14_nothing_moves_without_notification (s : Synchronizer) (evs : list Event) :
  processingAction s = true ->
  noNotify evs = true ->
  dispatched (snd (run evs s)) = []
  /\ completions (snd (run evs s)) = 0%nat
  /\ processingAction (fst (run evs s)) = true
  /\ actions (fst (run evs s)) = actions s
  /\ actionBuffer (fst (run evs s)) = actionBuffer s.
Proof.
  revert s. induction evs as [|e evs IH]; intros s Hp Hn; [simpl; auto|].
  simpl in Hn. apply andb_true_iff in Hn as [He Hn].
  destruct (step_waiting e s Hp He) as (H1 & H2 & H3 & H4 & H5).
  destruct (IH _ H1 Hn) as (I1 & I2 & I3 & I4 & I5).
  rewrite run_cons. cbn [fst snd dispatched completions].
  rewrite dispatched_effects, completions_effects, H4, H5, I1, I2.
  repeat split; congruence.
Qed.

Lemma X14_nothing_moves_without_notification_witness :
  dispatched (snd (run [Tick 1250; Tick 1500; Tick 2000; Tick 60000]
                       (fst (run [Start 0; Tick 1000]
                                 (loadResponse threeWrites initial))))) = [].
Proof.
  apply (X14_nothing_moves_without_notification
           (fst (run [Start 0; Tick 1000] (loadResponse threeWrites initial)))
           [Tick 1250; Tick 1500; Tick 2000; Tick 60000]);
    reflexivity.
Defined.

End Waiting.

(** * Further properties of the voice activity arbiter *)

Section ArbiterRuns.
Import Arbiter.

Lemma run_sample (f : Frame) (fs : list Frame) (d : Detector) :
  run (samples (f :: fs)) d
  = (fst (run (samples fs) (fst (detectSilence f d))),
     snd (detectSilence f d) ++ snd (run (samples fs) (fst (detectSilence f d)))).
Proof.
  simpl. destruct (detectSilence f d) as [d1 out1]. simpl.
  now destruct (run (samples fs) d1).
Qed.

(** With the user read as not speaking, the guard clear and the socket
    open, a loud frame sends [INT] as soon as the counter has reached
    [minSpeakingFrames], and again at every such frame after it. *)
Lemma run_loud_INT (fs : list Frame) :
  forall d : Detector,
    0 <= speakingFrames d ->
    Forall (fun f => loudFrame f /\ guard f = false
                     /\ isUserSpeaking f = false /\ wsOpen f = true) fs ->
    Z.of_nat (sent INT (snd (run (samples fs) d)))
    = Z.max 0 (speakingFrames d + Z.of_nat (length fs) - (minSpeakingFrames - 1))
      - Z.max 0 (speakingFrames d - (minSpeakingFrames - 1)).
Proof.
  induction fs as [|f fs IH]; intros d H0 Hfs.
  - cbn. unfold minSpeakingFrames. lia.
  - inversion Hfs as [|? ? (Hl & Hg & Hu & Hw) Hfs']; subst.
    destruct (detectSilence_loud f d Hl) as (Hc & _ & _ & _ & _ & _ & _ & _ & Hs).
    rewrite Hg, Hu, Hw in Hs. cbn [negb andb] in Hs. rewrite !andb_true_r in Hs.
    specialize (IH (fst (detectSilence f d)) ltac:(lia) Hfs').
    rewrite run_sample. cbn [fst snd length]. rewrite sent_app, Nat2Z.inj_add, IH, Hc, Hs.
    unfold minSpeakingFrames.
    destruct (15 <=? speakingFrames d + 1) eqn:E;
      [apply Z.leb_le in E|apply Z.leb_gt in E]; lia.
Qed.

(** X15.  On the mounted page the interrupt signal is not sent once per
    change of state but once per frame: the loop goes on reading the user
    as not speaking after it has marked them speaking, so in a run of loud
    frames read with detection enabled, the guard clear and the socket
    open, every frame from the 15th on sends [INT] again; [n] such frames
    send [n - 14] signals. *)
Theorem X15_interrupt_repeats (fs : list Frame) (d : Detector) :
  speakingFrames d = 0 ->
  Forall (fun f => loudFrame f /\ guard f = false
                   /\ isUserSpeaking f = false /\ wsOpen f = true) fs ->
  sent INT (snd (run (samples fs) d)) = (length fs - 14)%nat.
Proof.
  intros H0 Hfs.
  pose proof (run_loud_INT fs d ltac:(lia) Hfs) as H.
  rewrite H0 in H. unfold minSpeakingFrames in H. lia.
Qed.

Lemma X15_interrupt_repeats_witness :
  sent INT (snd (run (samples (repeat loudClear 18)) initial)) = 4%nat.
Proof.
  apply (X15_interrupt_repeats (repeat loudClear 18) initial).
  - reflexivity.
  - simpl. repeat (constructor; [repeat split; reflexivity|]). constructor.
Defined.





End ArbiterRuns.

(** * The transcript *)

Section TranscriptLines.
Import Parser Transcript.

Lemma nonEmpty_spec (s : jstring) : nonEmpty s = true <-> s <> [].
Proof.
  destruct s; simpl; split; intros H; try discriminate; try reflexivity.
  now destruct H.
Qed.

(** X17.  Every line added to the transcript is non-empty, has no white
    space at either end and holds no command in braces any more. *)
Theorem X17_transcript_lines_clean (response : jstring) :
  Forall (fun l => l <> [] /\ trim l = l /\ braceMatches l = [])
         (formattedLines response).
Proof.
  unfold formattedLines. rewrite List.Forall_forall. intros l Hl.
  apply List.filter_In in Hl as [Hl Hne].
  apply in_map_iff in Hl as (line & <- & _).
  split; [now apply nonEmpty_spec|]. unfold formatLine.
  split; [apply trim_idempotent|].
  rewrite braceMatches_trim. apply braceMatches_stripBracesFrom.
Qed.

Lemma stripBraces_none (s : jstring) : braceMatches s = [] -> stripBraces s = s.
Proof.
  unfold braceMatches, stripBraces.
  induction s as [|c s IH]; [reflexivity|].
  cbn [braceMatchesFrom stripBracesFrom].
  destruct (braceAt (c :: s)); [discriminate|].
  intros H. now rewrite IH.
Qed.

Lemma stripTimestampsFrom_skip (k : nat) :
  forall s : jstring,
    (k <= length s)%nat -> stripTimestampsFrom k s = stripTimestamps (drop k s).
Proof.
  induction k as [|k IH]; intros s Hk; [now rewrite drop_0|].
  destruct s as [|c s]; [simpl in Hk; lia|].
  simpl in Hk. cbn [stripTimestampsFrom]. rewrite IH by lia. reflexivity.
Qed.

Lemma timestampMatch_length (line : jstring) (m : jstring * jstring) :
  timestampMatch line = Some m -> (timestampMatchLength <= length line)%nat.
Proof.
  unfold timestampMatch, timestampMatchLength.
  destruct line as [|c1 [|c2 [|c3 [|c4 [|c5 [|c6 [|c7 l]]]]]]]; try discriminate.
  intros _. simpl. lia.
Qed.

Lemma stripTimestamps_leading (line : jstring) (m : jstring * jstring) :
  timestampMatch line = Some m ->
  stripTimestamps line = stripTimestamps (drop timestampMatchLength line).
Proof.
  intros Hm. pose proof (timestampMatch_length _ _ Hm) as Hlen.
  destruct line as [|c line]; [discriminate|].
  unfold stripTimestamps at 1. cbn [stripTimestampsFrom]. rewrite Hm.
  unfold timestampMatchLength in *. simpl in Hlen.
  rewrite stripTimestampsFrom_skip by (simpl; lia). reflexivity.
Qed.

(** What one tame line gives to the transcript is the text of the speech
    segment it gives to the parser, if that text is not empty. *)
Lemma formatLine_parseLine (line : jstring) :
  tame line = true ->
  List.filter nonEmpty (map text (acc_speech (parseLine (mkAcc [] [] 0) line)))
  = List.filter nonEmpty
      (map formatLine (List.filter (fun l => nonEmpty (trim l)) [line])).
Proof.
  unfold tame, parseLine, formatLine, nonEmpty. intros Ht.
  cbn [List.filter].
  destruct (length (trim line) =? 0)%nat eqn:Hblank; [reflexivity|].
  cbn [negb map List.filter].
  destruct (timestampMatch line) as [[mm ss]|] eqn:Hm.
  - apply bool_decide_eq_true in Ht.
    rewrite (stripTimestamps_leading _ _ Hm), Ht.
    destruct (braceMatches (trim (drop timestampMatchLength line))) as [|x xs] eqn:Hb.
    + rewrite braceMatches_trim in Hb. rewrite (stripBraces_none _ Hb).
      reflexivity.
    + cbn [acc_speech]. rewrite trim_stripBraces_trim.
      destruct (length (trim (stripBraces (drop timestampMatchLength line))) =? 0)%nat
        eqn:He; cbn [app map List.filter text]; now rewrite ?He.
  - apply andb_true_iff in Ht as [Ht Hb].
    apply bool_decide_eq_true in Ht. apply bool_decide_eq_true in Hb.
    rewrite Ht, (stripBraces_none _ Hb). reflexivity.
Qed.

Lemma fold_formatLine (lines : list jstring) :
  Forall (fun l => tame l = true) lines ->
  List.filter nonEmpty
    (map text (acc_speech (fold_left parseLine lines (mkAcc [] [] 0))))
  = List.filter nonEmpty
      (map formatLine (List.filter (fun l => nonEmpty (trim l)) lines)).
Proof.
  induction 1 as [|l lines Hl _ IH]; [reflexivity|].
  cbn [fold_left].
  destruct (fold_parseLine_independent lines (parseLine (mkAcc [] [] 0) l)) as [_ H].
  rewrite H, List.filter_app, IH, (formatLine_parseLine l Hl).
  rewrite <- List.filter_app, <- map_app. f_equal. f_equal.
  change (l :: lines) with ([l] ++ lines). now rewrite List.filter_app.
Qed.

(** X18.  For a script in which the only time stamps are those the lines
    start with, and in which lines without time stamp hold no command, the
    transcript shows what is spoken: its lines are the texts of the speech
    segments the synchronizer parses from the same script, those with an
    empty text left out. *)
Theorem X18_transcript_shows_the_speech (response : jstring) :
  forallb tame (split_lines response) = true ->
  formattedLines response
  = List.filter nonEmpty (map text (p_speech (parseResponse response))).
Proof.
  intros H. unfold formattedLines, parseResponse. cbn [p_speech].
  symmetry. apply fold_formatLine.
  rewrite List.Forall_forall. now apply forallb_forall.
Qed.

Lemma X18_transcript_shows_the_speech_witness :
  formattedLines Scheduler.exampleScript
  = List.filter nonEmpty (map text (p_speech (parseResponse Scheduler.exampleScript))).
Proof.
  apply (X18_transcript_shows_the_speech Scheduler.exampleScript).
  vm_compute. reflexivity.
Defined.

End TranscriptLines.

(** * The polling timers *)

Section PollingTimers.
Import Scheduler.

Lemma claimAction_armedBy (now t : Z) (i : nat) (a : Action) (s : Synchronizer) :
  armedBy now (snd (claimAction t i a s)) = []
  /\ isPlaying (fst (claimAction t i a s)) = isPlaying s.
Proof. unfold claimAction. now destruct (mustBuffer t s). Qed.

Lemma finishCheck_armedBy (now : Z) (found : bool) (s : Synchronizer) :
  armedBy now (snd (finishCheck found s))
  = if isPlaying (fst (finishCheck found s))
    then [now + (if found then 500 else 250)] else [].
Proof.
  unfold finishCheck. destruct (_ && _); [reflexivity|].
  destruct (isPlaying s) eqn:Hp; cbn [fst snd]; now rewrite Hp.
Qed.

Lemma armedBy_app (now : Z) (o1 o2 : list Effect) :
  armedBy now (o1 ++ o2) = armedBy now o1 ++ armedBy now o2.
Proof. unfold armedBy. apply flat_map_app. Qed.

Lemma checkActions_armedBy (now : Z) (s : Synchronizer) :
  armedBy now (snd (checkActions now s))
  = if isPlaying (fst (checkActions now s))
    then [now + match pollClaim now s with Some _ => 500 | None => 250 end]
    else [].
Proof.
  unfold checkActions, pollClaim.
  destruct (isPlaying s) eqn:Hp; cbn [negb andb]; [|cbn [fst snd]; now rewrite Hp].
  destruct (processingAction s); cbn [negb]; [cbn [fst snd]; now rewrite Hp|].
  destruct (selectAction _ _) as [[i a]|].
  - pose proof (claimAction_armedBy now (now - startTime s) i a s) as [H1 H2].
    destruct (claimAction _ i a s) as [s1 out1]. cbn [fst snd] in *.
    pose proof (finishCheck_armedBy now true s1) as H3.
    destruct (finishCheck true s1) as [s2 out2]. cbn [fst snd] in *.
    now rewrite armedBy_app, H1, H3.
  - pose proof (finishCheck_armedBy now false s) as H3.
    destruct (finishCheck false s) as [s2 out2]. cbn [fst snd] in *.
    exact H3.
Qed.

(** X19.  A call arms a timer exactly when it ends with a poll that
    leaves the synchronizer playing, and then exactly one: due 500 ms
    later if the poll claimed an action, 250 ms later otherwise.  So while
    the synchronizer plays, polling never stops; and a completion
    notification that finds the buffer empty starts a further chain of
    polls beside the one already running. *)
Theorem X19_one_timer_per_poll (e : Event) (s : Synchronizer) :
  armedBy (eventTime e) (snd (step e s))
  = if polls e s && isPlaying (fst (step e s))
    then [eventTime e + match claimOf e s with Some _ => 500 | None => 250 end]
    else [].
Proof.
  destruct e as [now|now|now]; cbn [step eventTime polls claimOf andb].
  - apply checkActions_armedBy.
  - apply checkActions_armedBy.
  - unfold notifyActionComplete.
    change (actionBuffer (set_processingAction false s)) with (actionBuffer s).
    destruct (actionBuffer s) as [|x rest]; cbn [length Nat.eqb andb].
    + apply checkActions_armedBy.
    + now destruct x.
Qed.

End PollingTimers.
